(** * Encrypted state sync: a shallow embedding of zk-crypto.js and state-sync.js

    The two modules are embedded as functions in a state-and-exception monad
    over a [World] that holds everything the JavaScript reads or mutates
    outside its arguments: the random source, the clock, the Firebase global,
    the HTTP peer, the timer table, and the module variables [debounceMs] and
    [debounceTimers].  The Web Cryptography primitives, the text codec and the
    JSON codec are supplied by a [Platform]; base64 is implemented here.
    [WebCrypto] says what the Web Cryptography API answers to the key
    derivation of [HKDF], and the claims about the program as it runs are
    stated for the platforms that satisfy it.

    Not modelled: [console.error] output, engine limits on the number of
    arguments of [String.fromCharCode(...bytes)], and non-finite numbers
    (JavaScript numbers are the rationals [Q]). *)

From Stdlib Require Import List NArith ZArith QArith Bool Lia.
From Stdlib Require Import DecimalString Sorting.Sorted Sorting.Permutation.
From Stdlib.Strings Require Import String Ascii Byte.
Import ListNotations.
Open Scope string_scope.

(** * Platform strings and byte arrays *)

Definition bytes := list byte.

Definition String_fromCharCode (bs : bytes) : string := string_of_list_byte bs.
Definition charCodes (s : string) : bytes := list_byte_of_string s.

Fixpoint map_chars (f : ascii -> ascii) (s : string) : string :=
  match s with
  | EmptyString => EmptyString
  | String c r => String (f c) (map_chars f r)
  end.

Fixpoint filter_chars (keep : ascii -> bool) (s : string) : string :=
  match s with
  | EmptyString => EmptyString
  | String c r => if keep c then String c (filter_chars keep r) else filter_chars keep r
  end.

Fixpoint string_repeat (c : ascii) (n : nat) : string :=
  match n with
  | O => EmptyString
  | S k => String c (string_repeat c k)
  end.

(** [s.replace(/c/g, d)] for a single literal character [c]. *)
Definition replace_all (c d : ascii) (s : string) : string :=
  map_chars (fun x => if Ascii.eqb x c then d else x) s.

(** [s.replace(/c/g, '')]. *)
Definition remove_all (c : ascii) (s : string) : string :=
  filter_chars (fun x => negb (Ascii.eqb x c)) s.

(** [hay.includes(needle)]. *)
Fixpoint includes (hay needle : string) : bool :=
  if String.prefix needle hay then true
  else match hay with
       | EmptyString => false
       | String _ r => includes r needle
       end.

(** * Base64 (btoa / atob) *)

(** A six-bit group, most significant bit first. *)
Definition sextet : Type := (bool * bool * bool * bool * bool * bool)%type.

Definition N_of_sextet (x : sextet) : N :=
  let '(b5, b4, b3, b2, b1, b0) := x in
  (32 * N.b2n b5 + 16 * N.b2n b4 + 8 * N.b2n b3 + 4 * N.b2n b2 + 2 * N.b2n b1 + N.b2n b0)%N.

Definition sextet_of_N (n : N) : sextet :=
  (N.testbit n 5, N.testbit n 4, N.testbit n 3, N.testbit n 2, N.testbit n 1, N.testbit n 0).

Definition b64_alphabet : string :=
  "ABCDEFGHIJKLMNOPQRSTUVWXYZabcdefghijklmnopqrstuvwxyz0123456789+/".

Definition sextet_to_char (x : sextet) : ascii :=
  match String.get (N.to_nat (N_of_sextet x)) b64_alphabet with
  | Some c => c
  | None => "="%char
  end.

Definition char_to_sextet (c : ascii) : option sextet :=
  let n := N_of_ascii c in
  if (65 <=? n)%N && (n <=? 90)%N then Some (sextet_of_N (n - 65))
  else if (97 <=? n)%N && (n <=? 122)%N then Some (sextet_of_N (n - 71))
  else if (48 <=? n)%N && (n <=? 57)%N then Some (sextet_of_N (n + 4))
  else if (n =? 43)%N then Some (sextet_of_N 62)
  else if (n =? 47)%N then Some (sextet_of_N 63)
  else None.

(** Bits of a character code: [Ascii] lists them least significant first. *)
Definition enc3 (a b c : ascii) : sextet * sextet * sextet * sextet :=
  let '(Ascii a0 a1 a2 a3 a4 a5 a6 a7) := a in
  let '(Ascii b0 b1 b2 b3 b4 b5 b6 b7) := b in
  let '(Ascii c0 c1 c2 c3 c4 c5 c6 c7) := c in
  ((a7, a6, a5, a4, a3, a2), (a1, a0, b7, b6, b5, b4),
   (b3, b2, b1, b0, c7, c6), (c5, c4, c3, c2, c1, c0)).

Definition dec4 (w x y z : sextet) : ascii * ascii * ascii :=
  let '(w5, w4, w3, w2, w1, w0) := w in
  let '(x5, x4, x3, x2, x1, x0) := x in
  let '(y5, y4, y3, y2, y1, y0) := y in
  let '(z5, z4, z3, z2, z1, z0) := z in
  (Ascii x4 x5 w0 w1 w2 w3 w4 w5,
   Ascii y2 y3 y4 y5 x0 x1 x2 x3,
   Ascii z0 z1 z2 z3 z4 z5 y0 y1).

Definition zero_char : ascii := Ascii false false false false false false false false.

(** [btoa]: three input characters become four alphabet characters; a final
    group of one or two characters is zero-filled and padded with [=]. *)
Fixpoint btoa (s : string) : string :=
  match s with
  | EmptyString => EmptyString
  | String a EmptyString =>
      let '(w, x, _, _) := enc3 a zero_char zero_char in
      String (sextet_to_char w) (String (sextet_to_char x) "==")
  | String a (String b EmptyString) =>
      let '(w, x, y, _) := enc3 a b zero_char in
      String (sextet_to_char w) (String (sextet_to_char x) (String (sextet_to_char y) "="))
  | String a (String b (String c rest)) =>
      let '(w, x, y, z) := enc3 a b c in
      String (sextet_to_char w) (String (sextet_to_char x)
        (String (sextet_to_char y) (String (sextet_to_char z) (btoa rest))))
  end.

Definition is_ascii_whitespace (c : ascii) : bool :=
  let n := N_of_ascii c in
  ((n =? 9) || (n =? 10) || (n =? 12) || (n =? 13) || (n =? 32))%N.

(** Removes one or two [=] that end the string. *)
Fixpoint strip_padding (s : string) : string :=
  match s with
  | EmptyString => EmptyString
  | String c r =>
      if Ascii.eqb c "=" && (String.eqb r "" || String.eqb r "=")
      then EmptyString
      else String c (strip_padding r)
  end.

Fixpoint sextets_of_string (s : string) : option (list sextet) :=
  match s with
  | EmptyString => Some []
  | String c r =>
      match char_to_sextet c, sextets_of_string r with
      | Some x, Some l => Some (x :: l)
      | _, _ => None
      end
  end.

Fixpoint decode_sextets (l : list sextet) : string :=
  match l with
  | w :: x :: y :: z :: rest =>
      let '(a, b, c) := dec4 w x y z in
      String a (String b (String c (decode_sextets rest)))
  | [w; x; y] =>
      let '(a, b, _) := dec4 w x y (sextet_of_N 0) in String a (String b EmptyString)
  | [w; x] =>
      let '(a, _, _) := dec4 w x (sextet_of_N 0) (sextet_of_N 0) in String a EmptyString
  | _ => EmptyString
  end.

(** [atob], the forgiving-base64 decode of the HTML standard; [None] stands
    for the [InvalidCharacterError] it throws. *)
Definition atob (data : string) : option string :=
  let data := filter_chars (fun c => negb (is_ascii_whitespace c)) data in
  let data := if (String.length data mod 4 =? 0)%nat then strip_padding data else data in
  if (String.length data mod 4 =? 1)%nat then None
  else match sextets_of_string data with
       | Some l => Some (decode_sextets l)
       | None => None
       end.

(** The two halves of the URL-safe variant, character by character. *)
Definition url_char (c : ascii) : ascii :=
  let c1 := if Ascii.eqb c "+" then "-"%char else c in
  if Ascii.eqb c1 "/" then "_"%char else c1.
Definition std_char (c : ascii) : ascii :=
  let c1 := if Ascii.eqb c "-" then "+"%char else c in
  if Ascii.eqb c1 "_" then "/"%char else c1.

Definition to_url (s : string) : string :=
  remove_all "=" (replace_all "/" "_" (replace_all "+" "-" s)).
Definition from_url (str : string) : string :=
  let base64 := replace_all "_" "/" (replace_all "-" "+" str) in
  base64 ++ string_repeat "=" ((4 - String.length base64 mod 4) mod 4).

(** * JavaScript values, errors and the effect monad *)

#[warnings="-register-all"]
Inductive json : Type :=
| JNull
| JBool (b : bool)
| JNum (n : Q)
| JStr (s : string)
| JArr (items : list json)
| JObj (fields : list (string * json)).

Fixpoint assoc {A : Type} (k : string) (l : list (string * A)) : option A :=
  match l with
  | [] => None
  | (k', a) :: r => if String.eqb k k' then Some a else assoc k r
  end.

(** [x.k] on a parsed JSON value that is not [null]; [None] is [undefined]. *)
Definition js_get (x : json) (k : string) : option json :=
  match x with
  | JObj fields => assoc k fields
  | _ => None
  end.

Definition truthy (x : json) : bool :=
  match x with
  | JNull => false
  | JBool b => b
  | JNum n => negb (Qeq_bool n 0)
  | JStr s => negb (String.eqb s "")
  | JArr _ | JObj _ => true
  end.

(** [typeof x === 'object'] ([null] and arrays included). *)
Definition typeof_object (x : json) : bool :=
  match x with
  | JNull | JArr _ | JObj _ => true
  | _ => false
  end.

Definition typeof_string (x : option json) : bool :=
  match x with Some (JStr _) => true | _ => false end.

Definition typeof_number (x : option json) : bool :=
  match x with Some (JNum _) => true | _ => false end.

(** [x === 1]. *)
Definition strict_eq_1 (x : option json) : bool :=
  match x with Some (JNum n) => Qeq_bool n 1 | _ => false end.

Definition as_string (x : option json) : string :=
  match x with Some (JStr s) => s | _ => "" end.

Definition as_number (x : option json) : Q :=
  match x with Some (JNum n) => n | _ => 0 end.

Inductive JsError : Type := Error (message : string).

Definition message (e : JsError) : string := let 'Error m := e in m.

Inductive result (A : Type) : Type :=
| Ok (a : A)
| Throw (e : JsError).
Arguments Ok {A} a.
Arguments Throw {A} e.

Definition string_of_Z (z : Z) : string := NilZero.string_of_int (Z.to_int z).

(** ** The HTTP peer *)

Inductive method := GET | PUT.

(** The path below [{base}/{id}/v1]; [RVersion x] is the segment written by
    interpolating the value [x]. *)
Inductive resource :=
| RLatest
| RVersion (ts : option json)
| RList (limit : Z).

Record request := mkRequest {
  req_method : method;
  req_base : string;
  req_id : string;
  req_resource : resource;
  req_headers : list (string * string);
  req_body : option json
}.

Record Response := mkResponse {
  status : Z;
  statusText : string;
  body : result json      (* what [.json()] settles to *)
}.

Definition ok (r : Response) : bool := (200 <=? status r)%Z && (status r <=? 299)%Z.

Inductive fetch_outcome :=
| Rejected (e : JsError)
| Responded (r : Response).

(** ** Web Cryptography calls *)

Inductive algorithm := PBKDF2 | HKDF_SHA256 | AES_GCM | HMAC_SHA256.

Record CryptoKey := mkKey {
  key_algorithm : algorithm;
  key_usage : string;
  key_raw : bytes
}.

(** The closure that [saveState] hands to [setTimeout], by its captured
    variables. *)
Record callback := mkCallback {
  cb_id : string;
  cb_passphrase : string;
  cb_stateObj : json
}.

Inductive event :=
| EvRandom (n : nat)
| EvImportKey (alg : algorithm) (usage : string)
| EvDeriveKey (password salt : bytes)
| EvDeriveBits (salt info : bytes) (bits : Z)
| EvEncrypt (key iv plaintext : bytes)
| EvDecrypt (key iv ciphertext : bytes)
| EvSign (key data : bytes)
| EvVerify (key signature data : bytes)
| EvFetch (r : request)
| EvTimerFired (handle : nat) (cb : callback).

(** ** Timers and module state *)

Record timer := mkTimer {
  timer_handle : nat;
  timer_due : Z;
  timer_cb : callback
}.

Inductive firebase_env :=
| FirebaseUndefined
| FirebaseWithoutAppCheck
| FirebaseAppCheck (getToken : result (option string)).

Record World := mkWorld {
  entropy : nat -> byte;               (* the bytes [crypto.getRandomValues] will hand out *)
  drawn : nat;                         (* how many of them are used *)
  clock : Z;                           (* [Date.now()] *)
  firebase : firebase_env;
  appCheckErrorLogged : bool;          (* [window._appCheckErrorLogged] *)
  FB_FUNCTION_BASE : string;           (* [window.FB_FUNCTION_BASE] *)
  network : list fetch_outcome;        (* what the coming [fetch] calls settle to *)
  timers : list timer;
  next_handle : nat;
  debounceMs : Z;
  debounceTimers : list (string * nat);
  trace : list event                   (* platform calls so far, oldest first *)
}.

Definition set_drawn (n : nat) (w : World) : World :=
  mkWorld (entropy w) n (clock w) (firebase w) (appCheckErrorLogged w) (FB_FUNCTION_BASE w)
          (network w) (timers w) (next_handle w) (debounceMs w) (debounceTimers w) (trace w).
Definition set_clock (t : Z) (w : World) : World :=
  mkWorld (entropy w) (drawn w) t (firebase w) (appCheckErrorLogged w) (FB_FUNCTION_BASE w)
          (network w) (timers w) (next_handle w) (debounceMs w) (debounceTimers w) (trace w).
Definition set_appCheckErrorLogged (b : bool) (w : World) : World :=
  mkWorld (entropy w) (drawn w) (clock w) (firebase w) b (FB_FUNCTION_BASE w)
          (network w) (timers w) (next_handle w) (debounceMs w) (debounceTimers w) (trace w).
Definition set_network (l : list fetch_outcome) (w : World) : World :=
  mkWorld (entropy w) (drawn w) (clock w) (firebase w) (appCheckErrorLogged w) (FB_FUNCTION_BASE w)
          l (timers w) (next_handle w) (debounceMs w) (debounceTimers w) (trace w).
Definition set_timers (l : list timer) (w : World) : World :=
  mkWorld (entropy w) (drawn w) (clock w) (firebase w) (appCheckErrorLogged w) (FB_FUNCTION_BASE w)
          (network w) l (next_handle w) (debounceMs w) (debounceTimers w) (trace w).
Definition set_next_handle (n : nat) (w : World) : World :=
  mkWorld (entropy w) (drawn w) (clock w) (firebase w) (appCheckErrorLogged w) (FB_FUNCTION_BASE w)
          (network w) (timers w) n (debounceMs w) (debounceTimers w) (trace w).
Definition set_debounceMs (ms : Z) (w : World) : World :=
  mkWorld (entropy w) (drawn w) (clock w) (firebase w) (appCheckErrorLogged w) (FB_FUNCTION_BASE w)
          (network w) (timers w) (next_handle w) ms (debounceTimers w) (trace w).
Definition set_debounceTimers (m : list (string * nat)) (w : World) : World :=
  mkWorld (entropy w) (drawn w) (clock w) (firebase w) (appCheckErrorLogged w) (FB_FUNCTION_BASE w)
          (network w) (timers w) (next_handle w) (debounceMs w) m (trace w).
Definition log (e : event) (w : World) : World :=
  mkWorld (entropy w) (drawn w) (clock w) (firebase w) (appCheckErrorLogged w) (FB_FUNCTION_BASE w)
          (network w) (timers w) (next_handle w) (debounceMs w) (debounceTimers w) (trace w ++ [e])%list.

(** ** The monad: an [async] function is a world transformer that returns or
    throws. *)

Definition M (A : Type) : Type := World -> result A * World.

Definition ret {A : Type} (a : A) : M A := fun w => (Ok a, w).

Definition throw {A : Type} (e : JsError) : M A := fun w => (Throw e, w).

Definition bind {A B : Type} (m : M A) (k : A -> M B) : M B :=
  fun w =>
    match m w with
    | (Ok a, w') => k a w'
    | (Throw e, w') => (Throw e, w')
    end.

(** [try { m } catch (error) { h error }]. *)
Definition try_catch {A : Type} (m : M A) (h : JsError -> M A) : M A :=
  fun w =>
    match m w with
    | (Ok a, w') => (Ok a, w')
    | (Throw e, w') => h e w'
    end.

Definition lift {A : Type} (r : result A) : M A := fun w => (r, w).

(** A platform call: it is recorded, then settles to [r]. *)
Definition call {A : Type} (e : event) (r : result A) : M A := fun w => (r, log e w).

Declare Scope js_scope.
Delimit Scope js_scope with js.
Notation "x <- m ;; k" := (bind m (fun x => k))
  (at level 61, m at next level, right associativity) : js_scope.
Notation "m ;;; k" := (bind m (fun _ => k))
  (at level 61, right associativity) : js_scope.
Open Scope js_scope.

(** A block that either falls through with a value or executes [return o]. *)
Inductive flow (A R : Type) : Type :=
| Next (a : A)
| Return (o : R).
Arguments Next {A R} a.
Arguments Return {A R} o.

(** ** What the program takes from its platform *)

Record Platform := mkPlatform {
  (* PBKDF2-SHA-256 [deriveKey] into an HKDF key: password, salt, iterations *)
  pbkdf2 : bytes -> bytes -> N -> result bytes;
  (* HKDF-SHA-256 [deriveBits]: key, salt, info, length in bits *)
  hkdf : bytes -> bytes -> bytes -> Z -> result bytes;
  (* AES-GCM without additional data: key, iv, text *)
  aes_gcm_encrypt : bytes -> bytes -> bytes -> result bytes;
  aes_gcm_decrypt : bytes -> bytes -> bytes -> result bytes;
  (* HMAC-SHA-256: key, data *)
  hmac_sha256 : bytes -> bytes -> bytes;
  (* TextEncoder / TextDecoder *)
  utf8_encode : string -> bytes;
  utf8_decode : bytes -> string;
  (* JSON.stringify / JSON.parse *)
  JSON_stringify : json -> string;
  JSON_parse : string -> result json
}.

Definition bytes_eqb (a b : bytes) : bool :=
  if list_eq_dec Byte.byte_eq_dec a b then true else false.

Definition algorithm_eqb (a b : algorithm) : bool :=
  match a, b with
  | PBKDF2, PBKDF2 | HKDF_SHA256, HKDF_SHA256 | AES_GCM, AES_GCM | HMAC_SHA256, HMAC_SHA256 => true
  | _, _ => false
  end.

(** Raw key import: an AES key has 128, 192 or 256 bits, an HMAC key is not
    empty, key-derivation input has any length. *)
Definition raw_key_ok (alg : algorithm) (raw : bytes) : bool :=
  match alg with
  | AES_GCM => let n := List.length raw in (n =? 16)%nat || (n =? 24)%nat || (n =? 32)%nat
  | HMAC_SHA256 => negb (List.length raw =? 0)%nat
  | PBKDF2 | HKDF_SHA256 => true
  end.

Definition atob_error : JsError := Error "The string to be decoded is not correctly encoded.".
Definition data_error : JsError := Error "Invalid key length".
Definition access_error : JsError := Error "key.usages does not permit this operation".
Definition fetch_error : JsError := Error "Failed to fetch".

(** * zk-crypto.js *)

Definition base64urlEncode (bs : bytes) : string :=
  let base64 := btoa (String_fromCharCode bs) in
  remove_all "=" (replace_all "/" "_" (replace_all "+" "-" base64)).

Definition base64urlDecode (str : string) : result bytes :=
  let base64 := replace_all "_" "/" (replace_all "-" "+" str) in
  let padded := base64 ++ string_repeat "=" ((4 - String.length base64 mod 4) mod 4) in
  match atob padded with
  | Some s => Ok (charCodes s)
  | None => Throw atob_error
  end.

Definition concatUint8Arrays (arrays : list bytes) : bytes :=
  fold_left (fun result arr => (result ++ arr)%list) arrays [].

(** The bytes the next [getRandomValues(n)] returns. *)
Definition sampled (n : nat) (w : World) : bytes :=
  map (fun i => entropy w (drawn w + i)%nat) (seq 0 n).

Definition getRandomValues (n : nat) : M bytes :=
  fun w => (Ok (sampled n w), log (EvRandom n) (set_drawn (drawn w + n) w)).

Definition Date_now : M Q := fun w => (Ok (inject_Z (clock w)), w).

Definition require_key (k : CryptoKey) (alg : algorithm) (usage : string) : result unit :=
  if algorithm_eqb (key_algorithm k) alg && String.eqb (key_usage k) usage
  then Ok tt else Throw access_error.

Definition and_then {A B : Type} (r : result A) (k : A -> result B) : result B :=
  match r with
  | Ok a => k a
  | Throw e => Throw e
  end.

Section Program.

Variable P : Platform.

(** ** [crypto.subtle] *)

Definition importKey (raw : bytes) (alg : algorithm) (usage : string) : M CryptoKey :=
  call (EvImportKey alg usage)
       (if raw_key_ok alg raw then Ok (mkKey alg usage raw) else Throw data_error).

Definition deriveKey_PBKDF2 (salt : bytes) (iterations : N) (keyMaterial : CryptoKey)
    (usage : string) : M CryptoKey :=
  call (EvDeriveKey (key_raw keyMaterial) salt)
       (and_then (require_key keyMaterial PBKDF2 "deriveKey") (fun _ =>
        and_then (pbkdf2 P (key_raw keyMaterial) salt iterations) (fun raw =>
        Ok (mkKey HKDF_SHA256 usage raw)))).

Definition deriveBits_HKDF (salt info : bytes) (key : CryptoKey) (bits : Z) : M bytes :=
  call (EvDeriveBits salt info bits)
       (and_then (require_key key HKDF_SHA256 "deriveBits") (fun _ =>
        hkdf P (key_raw key) salt info bits)).

Definition encrypt_AES_GCM (iv : bytes) (key : CryptoKey) (plaintext : bytes) : M bytes :=
  call (EvEncrypt (key_raw key) iv plaintext)
       (and_then (require_key key AES_GCM "encrypt") (fun _ =>
        aes_gcm_encrypt P (key_raw key) iv plaintext)).

Definition decrypt_AES_GCM (iv : bytes) (key : CryptoKey) (ciphertext : bytes) : M bytes :=
  call (EvDecrypt (key_raw key) iv ciphertext)
       (and_then (require_key key AES_GCM "decrypt") (fun _ =>
        aes_gcm_decrypt P (key_raw key) iv ciphertext)).

Definition sign_HMAC (key : CryptoKey) (data : bytes) : M bytes :=
  call (EvSign (key_raw key) data)
       (and_then (require_key key HMAC_SHA256 "sign") (fun _ =>
        Ok (hmac_sha256 P (key_raw key) data))).

(** HMAC verification recomputes the MAC and compares it with the signature. *)
Definition verify_HMAC (key : CryptoKey) (signature data : bytes) : M bool :=
  call (EvVerify (key_raw key) signature data)
       (and_then (require_key key HMAC_SHA256 "verify") (fun _ =>
        Ok (bytes_eqb (hmac_sha256 P (key_raw key) data) signature))).

(** ** HKDF key derivation using SubtleCrypto *)

Definition HKDF (passphrase info : string) (lengthBytes : Z) (saltB64u : string) : M bytes :=
  salt <- lift (base64urlDecode saltB64u) ;;
  keyMaterial <- importKey (utf8_encode P passphrase) PBKDF2 "deriveKey" ;;
  derivedKey <- deriveKey_PBKDF2 salt 100000 keyMaterial "deriveBits" ;;
  let infoBytes := utf8_encode P info in
  derivedBits <- deriveBits_HKDF salt infoBytes derivedKey (lengthBytes * 8) ;;
  ret derivedBits.

(** ** Derive a stable ID from passphrase *)

Definition deriveId (passphrase : string) : M string :=
  salt <- getRandomValues 16 ;;
  let saltB64u := base64urlEncode salt in
  idBytes <- HKDF passphrase "id" 16 saltB64u ;;
  ret (base64urlEncode idBytes).

(** ** Encrypt a JSON object with AES-GCM and HMAC *)

Definition encryptJson (obj : json) (passphrase : string) : M json :=
  salt <- getRandomValues 16 ;;
  iv <- getRandomValues 12 ;;
  let saltB64u := base64urlEncode salt in
  encKey <- HKDF passphrase "enc" 32 saltB64u ;;
  macKey <- HKDF passphrase "mac" 32 saltB64u ;;
  cryptoKey <- importKey encKey AES_GCM "encrypt" ;;
  hmacKey <- importKey macKey HMAC_SHA256 "sign" ;;
  let plaintext := utf8_encode P (JSON_stringify P obj) in
  ct <- encrypt_AES_GCM iv cryptoKey plaintext ;;
  let macData := concatUint8Arrays [salt; iv; ct] in
  macBytes <- sign_HMAC hmacKey macData ;;
  now <- Date_now ;;
  ret (JObj [("v", JNum 1);
             ("ts", JNum now);
             ("salt", JStr saltB64u);
             ("iv", JStr (base64urlEncode iv));
             ("ct", JStr (base64urlEncode ct));
             ("mac", JStr (base64urlEncode macBytes))]).

(** ** Verify HMAC and decrypt JSON object *)

Definition invalid_payload (payload : json) : bool :=
  negb (truthy payload) || negb (typeof_object payload) ||
  negb (strict_eq_1 (js_get payload "v")) ||
  negb (typeof_string (js_get payload "salt")) ||
  negb (typeof_string (js_get payload "iv")) ||
  negb (typeof_string (js_get payload "ct")) ||
  negb (typeof_string (js_get payload "mac")) ||
  negb (typeof_number (js_get payload "ts")).

Definition verifyAndDecrypt (payload : json) (passphrase : string) : M json :=
  try_catch
    ((if invalid_payload payload
      then throw (Error "Invalid payload structure") else ret tt) ;;;
     salt <- lift (base64urlDecode (as_string (js_get payload "salt"))) ;;
     iv <- lift (base64urlDecode (as_string (js_get payload "iv"))) ;;
     ct <- lift (base64urlDecode (as_string (js_get payload "ct"))) ;;
     mac <- lift (base64urlDecode (as_string (js_get payload "mac"))) ;;
     let saltB64u := as_string (js_get payload "salt") in
     encKey <- HKDF passphrase "enc" 32 saltB64u ;;
     macKey <- HKDF passphrase "mac" 32 saltB64u ;;
     cryptoKey <- importKey encKey AES_GCM "decrypt" ;;
     hmacKey <- importKey macKey HMAC_SHA256 "verify" ;;
     let macData := concatUint8Arrays [salt; iv; ct] in
     macValid <- verify_HMAC hmacKey mac macData ;;
     (if negb macValid
      then throw (Error "HMAC verification failed") else ret tt) ;;;
     plaintext <- decrypt_AES_GCM iv cryptoKey ct ;;
     let jsonStr := utf8_decode P plaintext in
     lift (JSON_parse P jsonStr))
    (fun error => throw (Error ("Decryption failed: " ++ message error))).

End Program.

(** * state-sync.js *)

(** ** Platform: fetch, timers, Map, Array *)

Definition fetch (r : request) : M Response :=
  fun w =>
    let w1 := log (EvFetch r) w in
    match network w with
    | [] => (Throw fetch_error, w1)
    | Rejected e :: rest => (Throw e, set_network rest w1)
    | Responded resp :: rest => (Ok resp, set_network rest w1)
    end.

(** [response.json()]. *)
Definition Response_json (r : Response) : M json := lift (body r).

Definition setTimeout (cb : callback) (delay : Z) : M nat :=
  fun w =>
    let h := next_handle w in
    (Ok h,
     set_next_handle (S h)
       (set_timers (timers w ++ [mkTimer h (clock w + Z.max 0 delay) cb])%list w)).

Definition clearTimeout (h : nat) : M unit :=
  fun w =>
    (Ok tt, set_timers (filter (fun t => negb (timer_handle t =? h)%nat) (timers w)) w).

Definition Map_has (k : string) : M bool :=
  fun w => (Ok (match assoc k (debounceTimers w) with Some _ => true | None => false end), w).

Definition Map_get (k : string) : M (option nat) :=
  fun w => (Ok (assoc k (debounceTimers w)), w).

Definition Map_delete (k : string) : M unit :=
  fun w =>
    (Ok tt,
     set_debounceTimers (filter (fun e => negb (String.eqb (fst e) k)) (debounceTimers w)) w).

Definition Map_set (k : string) (v : nat) : M unit :=
  fun w =>
    (Ok tt,
     set_debounceTimers
       (match assoc k (debounceTimers w) with
        | Some _ => map (fun e => if String.eqb (fst e) k then (k, v) else e) (debounceTimers w)
        | None => (debounceTimers w ++ [(k, v)])%list
        end) w).

(** [Array.prototype.sort] is stable; with the comparator [(a, b) => b.ts - a.ts]
    an element moves behind the elements whose [ts] is strictly larger. *)
Fixpoint insert_by_ts_desc (x : json) (l : list json) : list json :=
  match l with
  | [] => [x]
  | y :: r =>
      if Qlt_le_dec (as_number (js_get x "ts")) (as_number (js_get y "ts"))
      then y :: insert_by_ts_desc x r
      else x :: l
  end.

Definition sort_by_ts_desc (l : list json) : list json :=
  fold_right insert_by_ts_desc [] l.

(** ** Module state *)

Definition setCloudSaveDebounce (ms : Z) : M unit :=
  fun w => (Ok tt, set_debounceMs ms w).

(** ** Get App Check token, return null on failure *)

Definition getAppCheckToken : M (option string) :=
  try_catch
    (fun w =>
       match firebase w with
       | FirebaseUndefined | FirebaseWithoutAppCheck => (Ok None, w)
       | FirebaseAppCheck (Ok token) =>
           (Ok (match token with
                | Some t => if String.eqb t "" then None else Some t
                | None => None
                end), w)
       | FirebaseAppCheck (Throw e) => (Throw e, w)
       end)
    (fun error w =>
       (Ok None, if appCheckErrorLogged w then w else set_appCheckErrorLogged true w)).

Definition app_check_header (token : option string) : list (string * string) :=
  match token with
  | Some t => [("X-Firebase-AppCheck", t)]
  | None => []
  end.

Record SyncOutcome := mkOutcome {
  state : json;             (* [null] when absent *)
  error : option string     (* [null], ["network"] or ["integrity"] *)
}.

Definition is_decrypt_failure (e : JsError) : bool :=
  includes (message e) "Decryption failed" || includes (message e) "HMAC verification failed".

Section Sync.

Variable P : Platform.

(** ** Internal save function that performs immediate PUTs *)

Definition saveStateInternal (passphrase : string) (stateObj : json) : M unit :=
  id <- deriveId P passphrase ;;
  encrypted <- encryptJson P stateObj passphrase ;;
  token <- getAppCheckToken ;;
  let headers := (("Content-Type", "application/json") :: app_check_header token)%list in
  baseUrl <- (fun w => (Ok (FB_FUNCTION_BASE w), w)) ;;
  let ts := js_get encrypted "ts" in
  versionResponse <- fetch (mkRequest PUT baseUrl id (RVersion ts) headers (Some encrypted)) ;;
  if negb (ok versionResponse)
  then throw (Error ("Failed to save version: " ++ string_of_Z (status versionResponse)
                       ++ " " ++ statusText versionResponse))
  else
    latestResponse <- fetch (mkRequest PUT baseUrl id RLatest headers
                               (Some (JObj (match ts with
                                            | Some t => [("ts", t)]
                                            | None => []
                                            end)))) ;;
    if negb (ok latestResponse)
    then throw (Error ("Failed to update latest pointer: "
                         ++ string_of_Z (status latestResponse)
                         ++ " " ++ statusText latestResponse))
    else ret tt.

(** ** Debounced save function *)

Definition saveState (passphrase : string) (stateObj : json) : M unit :=
  id <- deriveId P passphrase ;;
  has <- Map_has id ;;
  (if has
   then (h <- Map_get id ;;
         match h with Some h => clearTimeout h | None => ret tt end)
   else ret tt) ;;;
  ms <- (fun w => (Ok (debounceMs w), w)) ;;
  timer <- setTimeout (mkCallback id passphrase stateObj) ms ;;
  Map_set id timer.

(** The body of the timer callback armed by [saveState]. *)
Definition timer_callback (cb : callback) : M unit :=
  try_catch
    (saveStateInternal (cb_passphrase cb) (cb_stateObj cb) ;;;
     Map_delete (cb_id cb))
    (fun error => Map_delete (cb_id cb) ;;; throw error).

(** The event loop runs one armed timer: it leaves the timer table, the clock
    reaches its due time, and its callback runs to completion; a rejection of
    the callback is not handled by anyone. *)
Definition fire (t : timer) (w : World) : World :=
  if existsb (fun t' => (timer_handle t' =? timer_handle t)%nat) (timers w) then
    let w1 := set_timers (filter (fun t' => negb (timer_handle t' =? timer_handle t)%nat)
                            (timers w)) w in
    let w2 := set_clock (Z.max (clock w1) (timer_due t)) w1 in
    snd (timer_callback (timer_cb t) (log (EvTimerFired (timer_handle t) (timer_cb t)) w2))
  else w.

Fixpoint insert_by_due (t : timer) (l : list timer) : list timer :=
  match l with
  | [] => [t]
  | u :: r => if (timer_due u <=? timer_due t)%Z then u :: insert_by_due t r else t :: l
  end.

(** Time passes until [clock w + dt]: the timers due by then fire in order of
    their due time (the callbacks of this module arm no timers). *)
Definition elapse (dt : Z) (w : World) : World :=
  let target := (clock w + dt)%Z in
  let due := filter (fun t => (timer_due t <=? target)%Z) (timers w) in
  let w' := fold_left (fun w t => fire t w) (fold_right insert_by_due [] (rev due)) w in
  set_clock (Z.max (clock w') target) w'.

(** ** Load state from cloud with structured error handling *)

Definition network_failure : SyncOutcome := mkOutcome JNull (Some "network").
Definition integrity_failure : SyncOutcome := mkOutcome JNull (Some "integrity").
Definition no_state : SyncOutcome := mkOutcome JNull None.

(** Try to get the latest pointer first. *)
Definition fetch_latest_pointer (baseUrl id : string) (headers : list (string * string))
  : M (flow (option json) SyncOutcome) :=
  try_catch
    (latestResponse <- fetch (mkRequest GET baseUrl id RLatest headers None) ;;
     if ok latestResponse then
       latestData <- Response_json latestResponse ;;
       if truthy latestData && typeof_number (js_get latestData "ts")
       then ret (Next (js_get latestData "ts"))
       else ret (Next None)
     else if negb (status latestResponse =? 404)%Z then
       throw (Error ("Latest pointer fetch failed: " ++ string_of_Z (status latestResponse)))
     else ret (Next None))
    (fun error => ret (Return network_failure)).

(** If we have a latest pointer, try to load that version. *)
Definition load_latest_version (passphrase baseUrl id : string)
    (headers : list (string * string)) (latestTs : json)
  : M (flow unit SyncOutcome) :=
  try_catch
    (versionResponse <- fetch (mkRequest GET baseUrl id (RVersion (Some latestTs)) headers None) ;;
     if ok versionResponse then
       versionData <- Response_json versionResponse ;;
       decrypted <- verifyAndDecrypt P versionData passphrase ;;
       ret (Return (mkOutcome decrypted None))
     else if (status versionResponse =? 404)%Z then
       ret (Next tt)
     else
       throw (Error ("Version fetch failed: " ++ string_of_Z (status versionResponse))))
    (fun error =>
       if is_decrypt_failure error
       then ret (Next tt)
       else ret (Return network_failure)).

(** Try versions in reverse chronological order (newest first). *)
Fixpoint try_versions (passphrase baseUrl id : string) (headers : list (string * string))
    (sortedVersions : list json) : M SyncOutcome :=
  match sortedVersions with
  | [] => ret integrity_failure
  | version :: rest =>
      step <- try_catch
                (versionResponse <- fetch (mkRequest GET baseUrl id
                                             (RVersion (js_get version "ts")) headers None) ;;
                 if ok versionResponse then
                   versionData <- Response_json versionResponse ;;
                   decrypted <- verifyAndDecrypt P versionData passphrase ;;
                   ret (Return (mkOutcome decrypted None))
                 else ret (Next tt))
                (fun error =>
                   if is_decrypt_failure error
                   then ret (Next tt)
                   else ret (Return network_failure)) ;;
      match step with
      | Return o => ret o
      | Next _ => try_versions passphrase baseUrl id headers rest
      end
  end.

(** Fallback: get list of versions and try to decrypt them. *)
Definition list_fallback (passphrase baseUrl id : string) (headers : list (string * string))
  : M SyncOutcome :=
  try_catch
    (listResponse <- fetch (mkRequest GET baseUrl id (RList 20) headers None) ;;
     if negb (ok listResponse) then
       throw (Error ("List fetch failed: " ++ string_of_Z (status listResponse)))
     else
       versions <- Response_json listResponse ;;
       match versions with
       | JArr ((_ :: _) as items) =>
           let sortedVersions :=
             sort_by_ts_desc
               (filter (fun v => truthy v && typeof_number (js_get v "ts")) items) in
           try_versions passphrase baseUrl id headers sortedVersions
       | _ => ret no_state
       end)
    (fun error => ret network_failure).

Definition loadState (passphrase : string) : M SyncOutcome :=
  try_catch
    (id <- deriveId P passphrase ;;
     token <- getAppCheckToken ;;
     let headers := app_check_header token in
     baseUrl <- (fun w => (Ok (FB_FUNCTION_BASE w), w)) ;;
     pointer <- fetch_latest_pointer baseUrl id headers ;;
     match pointer with
     | Return o => ret o
     | Next latestTs =>
         latest <- match latestTs with
                   | Some ts => load_latest_version passphrase baseUrl id headers ts
                   | None => ret (Next tt)
                   end ;;
         match latest with
         | Return o => ret o
         | Next _ => list_fallback passphrase baseUrl id headers
         end
     end)
    (fun error => ret network_failure).

End Sync.

(** * What the functions compute, without the world *)

(** The two key-derivation primitives in sequence, as [HKDF] calls them. *)
Definition kdf (P : Platform) (passphrase : string) (salt : bytes) (info : string)
    (lengthBytes : Z) : result bytes :=
  and_then (pbkdf2 P (utf8_encode P passphrase) salt 100000) (fun raw =>
  hkdf P raw salt (utf8_encode P info) (lengthBytes * 8)).

Definition HKDF_result (P : Platform) (passphrase info : string) (lengthBytes : Z)
    (saltB64u : string) : result bytes :=
  and_then (base64urlDecode saltB64u) (fun salt => kdf P passphrase salt info lengthBytes).

Definition add_events (evs : list event) (w : World) : World :=
  fold_left (fun w e => log e w) evs w.

(** [x.k = v] on an object. *)
Definition js_set (x : json) (k : string) (v : json) : json :=
  match x with
  | JObj fields =>
      JObj (match assoc k fields with
            | Some _ => map (fun e => if String.eqb (fst e) k then (k, v) else e) fields
            | None => (fields ++ [(k, v)])%list
            end)
  | _ => x
  end.

Definition well_formed_outcome (o : SyncOutcome) : Prop :=
  error o = None \/
  (state o = JNull /\ (error o = Some "network" \/ error o = Some "integrity")).

Definition is_decrypt_event (e : event) : bool :=
  match e with EvDecrypt _ _ _ => true | _ => false end.

(** The requests of a trace, oldest first. *)
Definition requests (tr : list event) : list request :=
  flat_map (fun e => match e with EvFetch r => [r] | _ => [] end) tr.

(** * The Web Cryptography API on the key derivation of [HKDF]

    [crypto.subtle.deriveKey] asks the algorithm of the key to derive for its
    key length and then lets the base key's algorithm derive that many bits.
    [HKDF] asks for a key of algorithm HKDF.  That algorithm has no key length
    (its length is null), and PBKDF2 derives no bits for a null length: it
    throws an OperationError.  On a platform that implements the API the call
    is therefore rejected, whatever the password, the salt and the iteration
    count. *)
Definition WebCrypto (P : Platform) : Prop :=
  forall password salt iterations, exists e, pbkdf2 P password salt iterations = Throw e.

(** * A small platform to run the model on

    Its primitives have the interfaces of the real ones and the same inverse
    laws, not their strength: a checksum stands for the hash, the cipher
    appends a tag to the plain text, and the JSON codec writes integers,
    strings without escapes, arrays and objects.

    Its [pbkdf2] returns a key for every input.  That is not what the Web
    Cryptography API answers to the call in [HKDF] (see [WebCrypto]): [Toy]
    is a platform on which the derivation goes through, and what runs on it
    past [HKDF] shows what the code would do there.  [web_crypto] below is the
    same platform with the API's answer. *)

Module Toy.

Definition byte_of (n : N) : byte :=
  match Byte.of_N (n mod 256) with
  | Some b => b
  | None => x00
  end.

Definition digest (bs : bytes) : N :=
  fold_left (fun acc b => ((acc * 31 + Byte.to_N b + 1) mod 65521)%N) bs 7%N.

Definition stream (seed : N) (n : nat) : bytes :=
  map (fun i => byte_of (seed + 7 * N.of_nat i)) (seq 0 n).

Definition operation_error : JsError := Error "The operation failed for an operation-specific reason".

Definition pbkdf2 (password salt : bytes) (iterations : N) : result bytes :=
  Ok (stream (digest (password ++ x00 :: salt)%list) 32).

Definition hkdf (key salt info : bytes) (bits : Z) : result bytes :=
  if (0 <? bits)%Z && (bits mod 8 =? 0)%Z && (bits <=? 65280)%Z
  then Ok (stream (digest (key ++ x01 :: salt ++ x02 :: info)%list) (Z.to_nat (bits / 8)))
  else Throw operation_error.

Definition tag (key iv text : bytes) : bytes :=
  stream (digest (key ++ x03 :: iv ++ x04 :: text)%list) 16.

Definition aes_gcm_encrypt (key iv plaintext : bytes) : result bytes :=
  Ok (plaintext ++ tag key iv plaintext)%list.

Definition aes_gcm_decrypt (key iv ciphertext : bytes) : result bytes :=
  let n := (List.length ciphertext - 16)%nat in
  let text := firstn n ciphertext in
  if (16 <=? List.length ciphertext)%nat && bytes_eqb (skipn n ciphertext) (tag key iv text)
  then Ok text else Throw operation_error.

Definition hmac_sha256 (key data : bytes) : bytes :=
  stream (digest (key ++ x05 :: data)%list) 32.

Definition dquote : ascii := ascii_of_nat 34.

Definition quoted (s : string) : string := String dquote (s ++ String dquote EmptyString).

Fixpoint stringify (v : json) : string :=
  match v with
  | JNull => "null"
  | JBool b => if b then "true" else "false"
  | JNum n => string_of_Z (Qnum n)
  | JStr s => quoted s
  | JArr items =>
      "[" ++ (fix go (l : list json) : string :=
                match l with
                | [] => EmptyString
                | [x] => stringify x
                | x :: r => stringify x ++ "," ++ go r
                end) items ++ "]"
  | JObj fields =>
      "{" ++ (fix go (l : list (string * json)) : string :=
                match l with
                | [] => EmptyString
                | [(k, x)] => quoted k ++ ":" ++ stringify x
                | (k, x) :: r => quoted k ++ ":" ++ stringify x ++ "," ++ go r
                end) fields ++ "}"
  end.

Fixpoint take_until (c : ascii) (s : string) : option (string * string) :=
  match s with
  | EmptyString => None
  | String x r =>
      if Ascii.eqb x c then Some (EmptyString, r)
      else match take_until c r with
           | Some (a, b) => Some (String x a, b)
           | None => None
           end
  end.

Definition is_digit (c : ascii) : bool :=
  let n := N_of_ascii c in (48 <=? n)%N && (n <=? 57)%N.

Fixpoint take_digits (s : string) (acc : Z) : Z * string :=
  match s with
  | String x r =>
      if is_digit x then take_digits r (10 * acc + Z.of_N (N_of_ascii x - 48))
      else (acc, s)
  | EmptyString => (acc, s)
  end.

Definition drop (n : nat) (s : string) : string := String.substring n (String.length s - n) s.

Fixpoint parse_value (fuel : nat) (s : string) : option (json * string) :=
  match fuel with
  | O => None
  | S fuel =>
      let parse_items :=
        fix items (n : nat) (s : string) : option (list json * string) :=
          match n with
          | O => None
          | S n =>
              match parse_value fuel s with
              | Some (x, String c r) =>
                  if Ascii.eqb c "," then
                    match items n r with
                    | Some (l, r') => Some (x :: l, r')
                    | None => None
                    end
                  else if Ascii.eqb c "]" then Some ([x], r) else None
              | _ => None
              end
          end in
      let parse_fields :=
        fix fields (n : nat) (s : string) : option (list (string * json) * string) :=
          match n with
          | O => None
          | S n =>
              match s with
              | String q r =>
                  if Ascii.eqb q dquote then
                    match take_until dquote r with
                    | Some (k, String colon r1) =>
                        if Ascii.eqb colon ":" then
                          match parse_value fuel r1 with
                          | Some (x, String c r2) =>
                              if Ascii.eqb c "," then
                                match fields n r2 with
                                | Some (l, r') => Some ((k, x) :: l, r')
                                | None => None
                                end
                              else if Ascii.eqb c "}" then Some ([(k, x)], r2) else None
                          | _ => None
                          end
                        else None
                    | _ => None
                    end
                  else None
              | EmptyString => None
              end
          end in
      if String.prefix "null" s then Some (JNull, drop 4 s)
      else if String.prefix "true" s then Some (JBool true, drop 4 s)
      else if String.prefix "false" s then Some (JBool false, drop 5 s)
      else match s with
           | EmptyString => None
           | String c r =>
               if Ascii.eqb c dquote then
                 match take_until dquote r with
                 | Some (str, r') => Some (JStr str, r')
                 | None => None
                 end
               else if Ascii.eqb c "-" then
                 let '(z, r') := take_digits r 0 in Some (JNum (inject_Z (- z)), r')
               else if is_digit c then
                 let '(z, r') := take_digits s 0 in Some (JNum (inject_Z z), r')
               else if Ascii.eqb c "[" then
                 match r with
                 | String c' r' =>
                     if Ascii.eqb c' "]" then Some (JArr [], r')
                     else match parse_items (String.length s) r with
                          | Some (l, r'') => Some (JArr l, r'')
                          | None => None
                          end
                 | EmptyString => None
                 end
               else if Ascii.eqb c "{" then
                 match r with
                 | String c' r' =>
                     if Ascii.eqb c' "}" then Some (JObj [], r')
                     else match parse_fields (String.length s) r with
                          | Some (l, r'') => Some (JObj l, r'')
                          | None => None
                          end
                 | EmptyString => None
                 end
               else None
           end
  end.

Definition parse (s : string) : result json :=
  match parse_value (S (String.length s)) s with
  | Some (v, EmptyString) => Ok v
  | _ => Throw (Error "Unexpected token in JSON")
  end.

Definition platform : Platform :=
  mkPlatform pbkdf2 hkdf aes_gcm_encrypt aes_gcm_decrypt hmac_sha256
             list_byte_of_string string_of_list_byte stringify parse.

(** A world whose random bytes count upwards from [seed], with [replies] as
    the answers of the HTTP peer. *)
Definition world (seed : N) (replies : list fetch_outcome) : World :=
  mkWorld (fun i => byte_of (seed + N.of_nat i)) 0 1700000000000 FirebaseUndefined false
          "https://example.test/api" replies [] 0 500 [] [].

Definition reply (code : Z) (payload : json) : fetch_outcome :=
  Responded (mkResponse code "" (Ok payload)).

End Toy.

(** [Toy.platform] with the answer of the Web Cryptography API to the key
    derivation of [HKDF]: an OperationError. *)
Definition web_crypto : Platform :=
  mkPlatform (fun _ _ _ => Throw Toy.operation_error)
             Toy.hkdf Toy.aes_gcm_encrypt Toy.aes_gcm_decrypt Toy.hmac_sha256
             list_byte_of_string string_of_list_byte Toy.stringify Toy.parse.

(** * Postconditions of monadic code *)

(** Whatever [m] returns satisfies [Q]. *)
Definition post {A : Type} (m : M A) (Q : A -> Prop) : Prop :=
  forall w a w', m w = (Ok a, w') -> Q a.

Definition flow_ok {A : Type} (f : flow A SyncOutcome) : Prop :=
  match f with
  | Return o => well_formed_outcome o
  | Next _ => True
  end.



(** * Concrete runs *)

Module Run.

Definition state1 : json := JObj [("a", JNum 1)].
Definition state2 : json := JObj [("a", JNum 2)].

Definition ok_reply : fetch_outcome := Toy.reply 200 JNull.

(** A well-formed envelope: what [encryptJson] computes for [state1] under
    the passphrase [correct-horse] on the platform [Toy]. *)
Definition envelope : json :=
  Eval vm_compute in
    match fst (encryptJson Toy.platform state1 "correct-horse" (Toy.world 1 [])) with
    | Ok e => e
    | Throw _ => JNull
    end.



(** Two saves of the same passphrase, 100 ms apart, then the debounce delay
    passes. *)
Definition two_saves (P : Platform) (w : World) : World :=
  let w1 := snd (saveState P "pw" state1 w) in
  let w2 := elapse P 100 w1 in
  let w3 := snd (saveState P "pw" state2 w2) in
  elapse P 500 w3.

Definition fired (w : World) : list json :=
  flat_map (fun e => match e with
                     | EvTimerFired _ cb => [cb_stateObj cb]
                     | _ => []
                     end) (trace w).

Definition version_puts (w : World) : nat :=
  List.length (filter (fun e => match e with
                                | EvFetch (mkRequest PUT _ _ (RVersion _) _ _) => true
                                | _ => false
                                end) (trace w)).

(** A platform whose key derivation ignores the salt, so that [deriveId]
    returns the same identifier on every call. *)
Definition salt_blind : Platform :=
  mkPlatform (fun password _ iterations => Toy.pbkdf2 password [] iterations)
             (fun key _ info bits => Toy.hkdf key [] info bits)
             Toy.aes_gcm_encrypt Toy.aes_gcm_decrypt Toy.hmac_sha256
             list_byte_of_string string_of_list_byte Toy.stringify Toy.parse.

(** A well-formed envelope whose [mac] field is not the MAC of its
    contents, and the same with format version 2. *)
Definition forged : json :=
  JObj [("v", JNum 1); ("ts", JNum 0); ("salt", JStr "c2FsdA"); ("iv", JStr "aXY");
        ("ct", JStr "Y3Q"); ("mac", JStr "bWFj")].

Definition forged_salt : bytes := ["s"%byte; "a"%byte; "l"%byte; "t"%byte].

Definition version2 : json := js_set envelope "v" (JNum 2).

End Run.

(** * Further definitions: frames, the scan, and the code around the claims *)

(** The characters of Base64url: letters, digits, [-] and [_]. *)
Definition url_safe (c : ascii) : bool :=
  let n := N_of_ascii c in
  ((65 <=? n) && (n <=? 90) || (97 <=? n) && (n <=? 122) || (48 <=? n) && (n <=? 57)
   || (n =? 45) || (n =? 95))%N.

(** Every character of [s] satisfies [p]. *)
Fixpoint all_chars (p : ascii -> bool) (s : string) : bool :=
  match s with
  | EmptyString => true
  | String c r => p c && all_chars p r
  end.

(** The characters [atob] decodes: those of standard Base64. *)
Definition in_alphabet (c : ascii) : bool :=
  match char_to_sextet c with Some _ => true | None => false end.

(** A string of standard Base64 characters, without white space or padding. *)
Definition clean (s : string) : Prop :=
  all_chars (fun c => in_alphabet c && negb (is_ascii_whitespace c) && negb (Ascii.eqb c "=")) s
  = true.

(** [new Uint8Array(n)]. *)
Definition Uint8Array_new (n : nat) : bytes := repeat x00 n.

(** [target.set(source, offset)]; [None] is the RangeError for a source that
    does not fit. *)
Definition Uint8Array_set (target source : bytes) (offset : nat) : option bytes :=
  if (offset + List.length source <=? List.length target)%nat
  then Some (firstn offset target ++ source
             ++ skipn (offset + List.length source) target)%list
  else None.

(** [arrays.reduce((sum, arr) => sum + arr.length, 0)]. *)
Definition total_length (arrays : list bytes) : nat :=
  fold_left (fun sum arr => (sum + List.length arr)%nat) arrays 0%nat.

(** [concatUint8Arrays] with its buffer and offset written out. *)
Definition concatUint8Arrays_buffer (arrays : list bytes) : option bytes :=
  let totalLength := total_length arrays in
  let result := Uint8Array_new totalLength in
  fst (fold_left (fun st arr =>
                    let '(result, offset) := st in
                    (match result with
                     | Some r => Uint8Array_set r arr offset
                     | None => None
                     end, (offset + List.length arr)%nat))
                 arrays (Some result, 0%nat)).

(** The events of the random source and of [crypto.subtle]: no request, no
    timer. *)
Definition is_local_event (e : event) : bool :=
  match e with
  | EvFetch _ | EvTimerFired _ _ => false
  | _ => true
  end.

(** The calls of [fetch]. *)
Definition is_fetch_event (e : event) : bool :=
  match e with EvFetch _ => true | _ => false end.

(** Everything of the world but the trace and the position in the random
    source. *)
Definition rest_of (w : World) :=
  (entropy w, clock w, firebase w, appCheckErrorLogged w, FB_FUNCTION_BASE w,
   network w, timers w, next_handle w, debounceMs w, debounceTimers w).

(** [m] draws [n] random bytes, makes platform calls that are local, and
    leaves the rest of the world as it was. *)
Definition quiet {A : Type} (n : nat) (m : M A) : Prop :=
  forall w, exists evs,
    snd (m w) = add_events evs (set_drawn (drawn w + n) w) /\
    forallb is_local_event evs = true.

(** The timers and the module variables of state-sync.js. *)
Definition scheduling (w : World) :=
  (timers w, next_handle w, debounceMs w, debounceTimers w, clock w).

(** [m] leaves the part [f] of the world as it was. *)
Definition keeps {A X : Type} (f : World -> X) (m : M A) : Prop :=
  forall w, f (snd (m w)) = f w.

(** [m] settles to the same result in every world. *)
Definition fixed {A : Type} (m : M A) : Prop :=
  forall w w0, fst (m w) = fst (m w0).

(** A world with nothing in it. *)
Definition blank : World :=
  mkWorld (fun _ => x00) 0 0 FirebaseUndefined false EmptyString [] [] 0 0 [] [].

(** What [verifyAndDecrypt] settles to. *)
Definition decrypted (P : Platform) (payload : json) (passphrase : string) : result json :=
  fst (verifyAndDecrypt P payload passphrase blank).

(** The answers the scan of [loadState] goes past: a status that is not 2xx,
    an envelope that [verifyAndDecrypt] refuses, or an error whose message
    reads like a decryption failure. *)
Definition passed_over (P : Platform) (passphrase : string) (o : fetch_outcome) : bool :=
  match o with
  | Responded r =>
      if ok r then
        match body r with
        | Ok payload =>
            match decrypted P payload passphrase with
            | Throw _ => true
            | Ok _ => false
            end
        | Throw e => is_decrypt_failure e
        end
      else true
  | Rejected e => is_decrypt_failure e
  end.

(** The answers on which a request of the scan fails: a rejected [fetch] or
    a 2xx answer whose body is not JSON, with any other message. *)
Definition transport_failure (o : fetch_outcome) : bool :=
  match o with
  | Responded r =>
      ok r && match body r with Throw e => negb (is_decrypt_failure e) | Ok _ => false end
  | Rejected e => negb (is_decrypt_failure e)
  end.

(** The request of the scan for one listed version. *)
Definition scan_get (baseUrl id : string) (headers : list (string * string)) (version : json)
  : request :=
  mkRequest GET baseUrl id (RVersion (js_get version "ts")) headers None.

(** * bootstrap: the payload of [unlock] *)

(** [c] occurs in [s]. *)
Fixpoint occurs (c : ascii) (s : string) : bool :=
  match s with
  | EmptyString => false
  | String x r => Ascii.eqb x c || occurs c r
  end.

(** [s.lastIndexOf(c)] for a needle of one character; [None] is [-1]. *)
Fixpoint lastIndexOf (c : ascii) (s : string) : option nat :=
  match s with
  | EmptyString => None
  | String x r =>
      match lastIndexOf c r with
      | Some i => Some (S i)
      | None => if Ascii.eqb x c then Some 0%nat else None
      end
  end.

(** The block of [unlock] that turns the decrypted text into
    [window.EXTRACTED_PAYLOAD]: everything up to the last closing brace is
    parsed, and whatever is thrown inside is thrown again under one message. *)
Definition unlock_payload (P : Platform) (dataJson : string) : result json :=
  match
    match lastIndexOf "}" dataJson with
    | None => Throw (Error "No closing brace found in decrypted data")
    | Some lastBrace => JSON_parse P (String.substring 0 (lastBrace + 1) dataJson)
    end
  with
  | Ok payload => Ok payload
  | Throw e => Throw (Error ("Decrypted data is not valid JSON: " ++ message e))
  end.

(** * Base64: decoding inverts encoding *)

Lemma string_ind3 (P : string -> Prop) :
  P "" ->
  (forall a, P (String a "")) ->
  (forall a b, P (String a (String b ""))) ->
  (forall a b c r, P r -> P (String a (String b (String c r)))) ->
  forall s, P s.
Proof.
  intros H0 H1 H2 H3.
  assert (forall s, P s /\ (forall a, P (String a s)) /\ (forall a b, P (String a (String b s)))) as H.
  { induction s as [|c s [IH0 [IH1 IH2]]]; repeat split; auto. }
  intro s; apply H.
Qed.

Ltac each_sextet x :=
  destruct x as [[[[[? ?] ?] ?] ?] ?];
  repeat match goal with b : bool |- _ => destruct b end.

Lemma char_to_sextet_to_char x : char_to_sextet (sextet_to_char x) = Some x.
Proof. each_sextet x; reflexivity. Qed.

Lemma sextet_char_not_ws x : is_ascii_whitespace (sextet_to_char x) = false.
Proof. each_sextet x; reflexivity. Qed.

Lemma sextet_char_not_pad x : Ascii.eqb (sextet_to_char x) "=" = false.
Proof. each_sextet x; reflexivity. Qed.

Lemma url_char_not_pad x : Ascii.eqb (url_char (sextet_to_char x)) "=" = false.
Proof. each_sextet x; reflexivity. Qed.
Lemma std_url_char x : std_char (url_char (sextet_to_char x)) = sextet_to_char x.
Proof. each_sextet x; reflexivity. Qed.

Lemma dec4_enc3 a b c :
  let '(w, x, y, z) := enc3 a b c in dec4 w x y z = (a, b, c).
Proof. destruct a, b, c; reflexivity. Qed.

Lemma mod4_SSSS n : (S (S (S (S n))) mod 4 = n mod 4)%nat.
Proof.
  change (S (S (S (S n)))) with (4 + n)%nat.
  rewrite Nat.add_comm. change 4%nat with (1 * 4)%nat at 1.
  apply Nat.Div0.mod_add.
Qed.

Lemma to_url_cons c s :
  to_url (String c s) =
  if Ascii.eqb (url_char c) "=" then to_url s else String (url_char c) (to_url s).
Proof.
  unfold to_url, remove_all, replace_all, url_char; simpl.
  destruct (Ascii.eqb _ "="); reflexivity.
Qed.

Lemma btoa_1 a :
  btoa (String a "") =
  let '(w, x, _, _) := enc3 a zero_char zero_char in
  String (sextet_to_char w) (String (sextet_to_char x) "==").
Proof. reflexivity. Qed.
Lemma btoa_2 a b :
  btoa (String a (String b "")) =
  let '(w, x, y, _) := enc3 a b zero_char in
  String (sextet_to_char w) (String (sextet_to_char x) (String (sextet_to_char y) "=")).
Proof. reflexivity. Qed.
Lemma btoa_3 a b c r :
  btoa (String a (String b (String c r))) =
  let '(w, x, y, z) := enc3 a b c in
  String (sextet_to_char w) (String (sextet_to_char x)
    (String (sextet_to_char y) (String (sextet_to_char z) (btoa r)))).
Proof. reflexivity. Qed.

Lemma dec4_enc3_1 a :
  let '(w, x, _, _) := enc3 a zero_char zero_char in
  let '(a', _, _) := dec4 w x (sextet_of_N 0) (sextet_of_N 0) in a' = a.
Proof. destruct a; reflexivity. Qed.
Lemma dec4_enc3_2 a b :
  let '(w, x, y, _) := enc3 a b zero_char in
  let '(a', b', _) := dec4 w x y (sextet_of_N 0) in a' = a /\ b' = b.
Proof. destruct a, b; split; reflexivity. Qed.

Lemma strip_padding_char x r :
  strip_padding (String (sextet_to_char x) r) = String (sextet_to_char x) (strip_padding r).
Proof. cbn [strip_padding]. now rewrite sextet_char_not_pad. Qed.

Lemma filter_ws_char x r :
  filter_chars (fun c => negb (is_ascii_whitespace c)) (String (sextet_to_char x) r) =
  String (sextet_to_char x) (filter_chars (fun c => negb (is_ascii_whitespace c)) r).
Proof. cbn [filter_chars]. now rewrite sextet_char_not_ws. Qed.

Lemma sextets_of_string_char x r :
  sextets_of_string (String (sextet_to_char x) r) =
  match sextets_of_string r with Some l => Some (x :: l) | None => None end.
Proof. cbn [sextets_of_string]. now rewrite char_to_sextet_to_char. Qed.

Lemma filter_ws_btoa s :
  filter_chars (fun c => negb (is_ascii_whitespace c)) (btoa s) = btoa s.
Proof.
  induction s as [|a|a b|a b c r IH] using string_ind3.
  - reflexivity.
  - rewrite btoa_1. destruct (enc3 _ _ _) as [[[w x] y] z].
    now rewrite !filter_ws_char.
  - rewrite btoa_2. destruct (enc3 _ _ _) as [[[w x] y] z].
    now rewrite !filter_ws_char.
  - rewrite btoa_3. destruct (enc3 _ _ _) as [[[w x] y] z].
    now rewrite !filter_ws_char, IH.
Qed.

Lemma length_btoa_mod4 s : (String.length (btoa s) mod 4 = 0)%nat.
Proof.
  induction s as [|a|a b|a b c r IH] using string_ind3.
  - reflexivity.
  - rewrite btoa_1. destruct (enc3 _ _ _) as [[[w x] y] z]. reflexivity.
  - rewrite btoa_2. destruct (enc3 _ _ _) as [[[w x] y] z]. reflexivity.
  - rewrite btoa_3. destruct (enc3 _ _ _) as [[[w x] y] z].
    cbn [String.length]. now rewrite mod4_SSSS.
Qed.

Lemma decode_stripped_btoa s :
  (String.length (strip_padding (btoa s)) mod 4 <> 1)%nat /\
  exists l, sextets_of_string (strip_padding (btoa s)) = Some l /\ decode_sextets l = s.
Proof.
  induction s as [|a|a b|a b c r IH] using string_ind3.
  - split; [discriminate|]. exists []. split; reflexivity.
  - rewrite btoa_1. pose proof (dec4_enc3_1 a) as D.
    destruct (enc3 _ _ _) as [[[w x] y] z]. rewrite !strip_padding_char.
    split; [discriminate|]. exists [w; x]. rewrite !sextets_of_string_char.
    split; [reflexivity|]. cbn [decode_sextets].
    destruct (dec4 _ _ _ _) as [[a' b'] c']. now subst.
  - rewrite btoa_2. pose proof (dec4_enc3_2 a b) as D.
    destruct (enc3 _ _ _) as [[[w x] y] z]. rewrite !strip_padding_char.
    split; [discriminate|]. exists [w; x; y]. rewrite !sextets_of_string_char.
    split; [reflexivity|]. cbn [decode_sextets].
    destruct (dec4 _ _ _ _) as [[a' b'] c']. destruct D; now subst.
  - rewrite btoa_3. pose proof (dec4_enc3 a b c) as D.
    destruct (enc3 _ _ _) as [[[w x] y] z]. rewrite !strip_padding_char.
    destruct IH as [Hlen [l [Hl Hd]]]. split.
    + cbn [String.length]. now rewrite mod4_SSSS.
    + exists (w :: x :: y :: z :: l). rewrite !sextets_of_string_char, Hl.
      split; [reflexivity|]. cbn [decode_sextets]. now rewrite D, Hd.
Qed.

Theorem atob_btoa s : atob (btoa s) = Some s.
Proof.
  unfold atob. rewrite filter_ws_btoa, length_btoa_mod4. cbn [Nat.eqb].
  destruct (decode_stripped_btoa s) as [Hlen [l [Hl Hd]]].
  destruct (Nat.eqb_spec (String.length (strip_padding (btoa s)) mod 4) 1) as [E|_];
    [contradiction|].
  now rewrite Hl, Hd.
Qed.

Lemma from_url_4 a b c d s :
  from_url (String a (String b (String c (String d s)))) =
  String (std_char a) (String (std_char b) (String (std_char c) (String (std_char d) (from_url s)))).
Proof.
  unfold from_url, replace_all. cbn [map_chars String.length append].
  now rewrite mod4_SSSS.
Qed.

Lemma from_url_to_url_btoa s : from_url (to_url (btoa s)) = btoa s.
Proof.
  induction s as [|a|a b|a b c r IH] using string_ind3.
  - reflexivity.
  - rewrite btoa_1. destruct (enc3 _ _ _) as [[[w x] y] z].
    do 2 (rewrite to_url_cons, url_char_not_pad).
    change (to_url "==") with "".
    change (from_url (String (url_char (sextet_to_char w)) (String (url_char (sextet_to_char x)) "")))
      with (String (std_char (url_char (sextet_to_char w)))
              (String (std_char (url_char (sextet_to_char x))) "==")).
    now rewrite !std_url_char.
  - rewrite btoa_2. destruct (enc3 _ _ _) as [[[w x] y] z].
    do 3 (rewrite to_url_cons, url_char_not_pad).
    change (to_url "=") with "".
    change (from_url (String (url_char (sextet_to_char w)) (String (url_char (sextet_to_char x))
                (String (url_char (sextet_to_char y)) ""))))
      with (String (std_char (url_char (sextet_to_char w)))
              (String (std_char (url_char (sextet_to_char x)))
                 (String (std_char (url_char (sextet_to_char y))) "="))).
    now rewrite !std_url_char.
  - rewrite btoa_3. destruct (enc3 _ _ _) as [[[w x] y] z].
    do 4 (rewrite to_url_cons, url_char_not_pad).
    rewrite from_url_4, !std_url_char.
    now rewrite IH.
Qed.

Lemma base64urlEncode_to_url bs : base64urlEncode bs = to_url (btoa (String_fromCharCode bs)).
Proof. reflexivity. Qed.

Lemma base64urlDecode_from_url str :
  base64urlDecode str =
  match atob (from_url str) with Some s => Ok (charCodes s) | None => Throw atob_error end.
Proof. reflexivity. Qed.

Lemma base64url_roundtrip bs : base64urlDecode (base64urlEncode bs) = Ok bs.
Proof.
  rewrite base64urlEncode_to_url, base64urlDecode_from_url.
  rewrite from_url_to_url_btoa, atob_btoa.
  unfold charCodes, String_fromCharCode.
  now rewrite list_byte_of_string_of_list_byte.
Qed.

Lemma base64urlEncode_inj a b : base64urlEncode a = base64urlEncode b -> a = b.
Proof.
  intro E. pose proof (base64url_roundtrip a) as Ha.
  rewrite E, base64url_roundtrip in Ha. congruence.
Qed.

Example base64url_bytes : base64urlEncode [xfb; xff; xfe] = "-__-".
Proof. reflexivity. Qed.

Example base64url_unpadded : base64urlDecode "TWE" = Ok ["M"%byte; "a"%byte].
Proof. reflexivity. Qed.

Example base64url_rejects : base64urlDecode "T" = Throw atob_error.
Proof. reflexivity. Qed.

(** * The monad *)

Lemma bind_Ok_inv {A B} (m : M A) (k : A -> M B) w b w' :
  bind m k w = (Ok b, w') ->
  exists a w1, m w = (Ok a, w1) /\ k a w1 = (Ok b, w').
Proof.
  unfold bind. destruct (m w) as [[a|e] w1]; [eauto | discriminate].
Qed.

Lemma post_ret {A} (a : A) (Q : A -> Prop) : Q a -> post (ret a) Q.
Proof. intros H w a' w' [= <- _]. exact H. Qed.

Lemma post_throw {A} e (Q : A -> Prop) : post (throw e) Q.
Proof. intros w a w' [=]. Qed.

Lemma post_bind {A B} (m : M A) (k : A -> M B) (Q : B -> Prop) :
  (forall a, post (k a) Q) -> post (bind m k) Q.
Proof.
  intros Hk w b w' H. apply bind_Ok_inv in H as (a & w1 & _ & H). eapply Hk, H.
Qed.

Lemma post_bind_with {A B} (R : A -> Prop) (m : M A) (k : A -> M B) (Q : B -> Prop) :
  post m R -> (forall a, R a -> post (k a) Q) -> post (bind m k) Q.
Proof.
  intros Hm Hk w b w' H. apply bind_Ok_inv in H as (a & w1 & Ha & H).
  eapply Hk; [eapply Hm, Ha | exact H].
Qed.

Lemma post_try_catch {A} (m : M A) (h : JsError -> M A) (Q : A -> Prop) :
  post m Q -> (forall e, post (h e) Q) -> post (try_catch m h) Q.
Proof.
  intros Hm Hh w a w' H. unfold try_catch in H.
  destruct (m w) as [[a0|e] w1] eqn:E.
  - injection H as <- _. eapply Hm, E.
  - eapply Hh, H.
Qed.

Lemma try_catch_returns {A} (m : M A) (h : JsError -> M A) :
  (forall e w, exists a w', h e w = (Ok a, w')) ->
  forall w, exists a w', try_catch m h w = (Ok a, w').
Proof.
  intros Hh w. unfold try_catch. destruct (m w) as [[a|e] w1]; eauto.
Qed.

(** * The trace *)

Lemma trace_add_events evs w : trace (add_events evs w) = (trace w ++ evs)%list.
Proof.
  revert w. induction evs as [|e evs IH]; intro w; cbn [add_events fold_left].
  - now rewrite app_nil_r.
  - fold (add_events evs (log e w)). rewrite IH. cbn [log trace].
    now rewrite <- app_assoc.
Qed.

Lemma add_events_app a b w : add_events (a ++ b) w = add_events b (add_events a w).
Proof. unfold add_events. apply fold_left_app. Qed.


Lemma drawn_add_events evs w : drawn (add_events evs w) = drawn w.
Proof. revert w. induction evs as [|e evs IH]; intro w; [reflexivity|]. cbn. now rewrite IH. Qed.

Lemma entropy_add_events evs w : entropy (add_events evs w) = entropy w.
Proof. revert w. induction evs as [|e evs IH]; intro w; [reflexivity|]. cbn. now rewrite IH. Qed.


(** * Key derivation *)

Lemma HKDF_fst P passphrase info lengthBytes saltB64u w :
  fst (HKDF P passphrase info lengthBytes saltB64u w)
  = HKDF_result P passphrase info lengthBytes saltB64u.
Proof.
  unfold HKDF, HKDF_result, kdf, bind, lift, importKey, deriveKey_PBKDF2, deriveBits_HKDF,
    call, ret.
  destruct (base64urlDecode saltB64u) as [salt|e]; [|reflexivity].
  cbn. destruct (pbkdf2 P _ _ _) as [raw|e]; [|reflexivity].
  cbn. destruct (hkdf P _ _ _ _) as [out|e]; reflexivity.
Qed.

Lemma HKDF_snd P passphrase info lengthBytes saltB64u w :
  exists evs,
    snd (HKDF P passphrase info lengthBytes saltB64u w) = add_events evs w /\
    existsb is_decrypt_event evs = false.
Proof.
  unfold HKDF, bind, lift, importKey, deriveKey_PBKDF2, deriveBits_HKDF, call, ret.
  destruct (base64urlDecode saltB64u) as [salt|e]; [|now exists []].
  cbn. destruct (pbkdf2 P _ _ _) as [raw|e]; cbn.
  - destruct (hkdf P _ _ _ _); now eexists [_; _; _].
  - now eexists [_; _].
Qed.

Lemma web_crypto_rejects : WebCrypto web_crypto.
Proof. intros password salt iterations. eexists. reflexivity. Qed.

(** On the Web Cryptography API [HKDF] throws for every argument: the error
    of the salt's decoding, or else the error [deriveKey] rejects with; the
    calls it made stop at [deriveKey]. *)
Lemma HKDF_rejected P passphrase info lengthBytes saltB64u w :
  WebCrypto P ->
  exists e,
    HKDF P passphrase info lengthBytes saltB64u w
    = (Throw e,
       match base64urlDecode saltB64u with
       | Ok salt => add_events [EvImportKey PBKDF2 "deriveKey";
                                EvDeriveKey (utf8_encode P passphrase) salt] w
       | Throw _ => w
       end) /\
    match base64urlDecode saltB64u with
    | Ok salt => pbkdf2 P (utf8_encode P passphrase) salt 100000 = Throw e
    | Throw e' => e = e'
    end.
Proof.
  intro HW. unfold HKDF, bind, lift, importKey, deriveKey_PBKDF2, call.
  destruct (base64urlDecode saltB64u) as [salt|e0]; [|exists e0; split; reflexivity].
  destruct (HW (utf8_encode P passphrase) salt 100000%N) as [e He].
  cbn. rewrite He. exists e. split; reflexivity.
Qed.

(** C7: on the Web Cryptography API [HKDF] fails whenever the passphrase is
    empty or the requested length is not positive, with the error of the
    key derivation when the salt decodes (it has no guard of its own: the
    derivation is rejected for every argument); and for all arguments its
    result is the same in every world, so equal arguments give equal
    results. *)
Theorem HKDF_fails_on_empty_or_nonpositive P passphrase info lengthBytes saltB64u w :
  WebCrypto P ->
  (passphrase = "" \/ (lengthBytes <= 0)%Z ->
   exists e w',
     HKDF P passphrase info lengthBytes saltB64u w = (Throw e, w') /\
     forall salt, base64urlDecode saltB64u = Ok salt ->
                  pbkdf2 P (utf8_encode P passphrase) salt 100000 = Throw e) /\
  (forall w0, fst (HKDF P passphrase info lengthBytes saltB64u w0)
              = fst (HKDF P passphrase info lengthBytes saltB64u w)).
Proof.
  intro HW. split.
  - intros _.
    destruct (HKDF_rejected P passphrase info lengthBytes saltB64u w HW) as (e & Hrun & He).
    exists e. eexists. split; [exact Hrun|].
    intros salt Hsalt. now rewrite Hsalt in He.
  - intro w0. now rewrite !HKDF_fst.
Qed.

Lemma HKDF_fails_on_empty_or_nonpositive_witness :
  (exists e w', HKDF web_crypto "" "id" 16 "c2FsdA" (Toy.world 0 []) = (Throw e, w')) /\
  (exists e w', HKDF web_crypto "pw" "id" 0 "c2FsdA" (Toy.world 0 []) = (Throw e, w')).
Proof.
  split.
  - destruct (proj1 (HKDF_fails_on_empty_or_nonpositive web_crypto "" "id" 16 "c2FsdA"
                       (Toy.world 0 []) web_crypto_rejects)) as (e & w' & Hrun & _).
    + left. reflexivity.
    + exists e, w'. exact Hrun.
  - destruct (proj1 (HKDF_fails_on_empty_or_nonpositive web_crypto "pw" "id" 0 "c2FsdA"
                       (Toy.world 0 []) web_crypto_rejects)) as (e & w' & Hrun & _).
    + right. lia.
    + exists e, w'. exact Hrun.
Defined.

(** * The identifier *)

(** On the Web Cryptography API [deriveId] draws its salt, hands it to
    [deriveKey] and is rejected there. *)
Lemma deriveId_rejected P passphrase w :
  WebCrypto P ->
  exists e,
    deriveId P passphrase w
    = (Throw e,
       add_events [EvRandom 16; EvImportKey PBKDF2 "deriveKey";
                   EvDeriveKey (utf8_encode P passphrase) (sampled 16 w)]
         (set_drawn (drawn w + 16) w)) /\
    pbkdf2 P (utf8_encode P passphrase) (sampled 16 w) 100000 = Throw e.
Proof.
  intro HW. unfold deriveId, bind at 1, getRandomValues.
  destruct (HKDF_rejected P passphrase "id" 16 (base64urlEncode (sampled 16 w))
              (log (EvRandom 16) (set_drawn (drawn w + 16) w)) HW) as (e & Hrun & He).
  rewrite base64url_roundtrip in Hrun, He.
  unfold bind. rewrite Hrun. exists e. split; [reflexivity | exact He].
Qed.

(** C2, on the code as it runs: every call of [deriveId] draws a fresh salt,
    the next sixteen bytes of the random source, and hands it to the key
    derivation; on the Web Cryptography API the derivation is rejected, so
    the call throws and returns no identifier, for every passphrase. *)
Theorem deriveId_draws_salt_and_rejects P passphrase w :
  WebCrypto P ->
  exists e w',
    deriveId P passphrase w = (Throw e, w') /\
    drawn w' = (drawn w + 16)%nat /\ entropy w' = entropy w /\
    trace w' = (trace w ++ [EvRandom 16; EvImportKey PBKDF2 "deriveKey";
                            EvDeriveKey (utf8_encode P passphrase) (sampled 16 w)])%list.
Proof.
  intro HW. destruct (deriveId_rejected P passphrase w HW) as (e & Hrun & _).
  exists e. eexists. split; [exact Hrun|].
  rewrite trace_add_events, drawn_add_events, entropy_add_events. repeat split.
Qed.

Lemma deriveId_draws_salt_and_rejects_witness :
  exists e1 w1 e2 w2,
    deriveId web_crypto "pw" (Toy.world 1 []) = (Throw e1, w1) /\
    deriveId web_crypto "pw" w1 = (Throw e2, w2) /\
    sampled 16 (Toy.world 1 []) <> sampled 16 w1.
Proof.
  destruct (deriveId_draws_salt_and_rejects web_crypto "pw" (Toy.world 1 []) web_crypto_rejects)
    as (e1 & w1 & H1 & D1 & E1 & _).
  destruct (deriveId_draws_salt_and_rejects web_crypto "pw" w1 web_crypto_rejects)
    as (e2 & w2 & H2 & _).
  exists e1, w1, e2, w2. split; [exact H1|]. split; [exact H2|].
  unfold sampled. rewrite D1, E1. vm_compute. discriminate.
Defined.

(** * The envelope *)


Lemma requests_app a b : requests (a ++ b) = (requests a ++ requests b)%list.
Proof. apply flat_map_app. Qed.

(** On the Web Cryptography API [encryptJson] is rejected at its first key
    derivation: it draws the salt and the nonce and sends nothing. *)
Lemma encryptJson_rejected P obj passphrase w :
  WebCrypto P ->
  exists e w',
    encryptJson P obj passphrase w = (Throw e, w') /\
    network w' = network w /\ requests (trace w') = requests (trace w).
Proof.
  intro HW. unfold encryptJson, bind at 1, getRandomValues at 1.
  unfold bind at 1, getRandomValues at 1. unfold bind at 1.
  match goal with
  | |- context [HKDF P passphrase "enc" 32 ?s ?w0] =>
      destruct (HKDF_rejected P passphrase "enc" 32 s w0 HW) as (e & Hrun & _);
      rewrite Hrun
  end.
  rewrite base64url_roundtrip. exists e. eexists. split; [reflexivity|].
  split; [reflexivity|].
  cbn [trace add_events fold_left log set_drawn]. rewrite !requests_app.
  cbn. now rewrite !app_nil_r.
Qed.

(** On the Web Cryptography API [verifyAndDecrypt] returns for no payload:
    what passes the structural check and decodes is rejected at the first key
    derivation. *)
Lemma verifyAndDecrypt_rejected P payload passphrase w :
  WebCrypto P ->
  exists e w', verifyAndDecrypt P payload passphrase w = (Throw e, w').
Proof.
  intro HW. unfold verifyAndDecrypt, try_catch, bind at 1.
  destruct (invalid_payload payload); [unfold throw; eauto|].
  unfold ret at 1.
  do 4 (unfold bind at 1, lift at 1;
        destruct (base64urlDecode _) as [?|?]; [|unfold throw; eauto]).
  unfold bind at 1.
  match goal with
  | |- context [HKDF P passphrase "enc" 32 ?s ?w0] =>
      destruct (HKDF_rejected P passphrase "enc" 32 s w0 HW) as (e & Hrun & _);
      rewrite Hrun
  end.
  unfold throw. eauto.
Qed.

(** C1, on the code as it runs: on the Web Cryptography API [encryptJson]
    throws for every value and passphrase, so there is no envelope to
    decrypt, and [verifyAndDecrypt] throws for every payload: the round trip
    returns [v] for no [v]. *)
Theorem encrypt_then_decrypt_rejects P v passphrase w :
  WebCrypto P ->
  (exists e w', encryptJson P v passphrase w = (Throw e, w')) /\
  (forall payload w2, exists e w', verifyAndDecrypt P payload passphrase w2 = (Throw e, w')).
Proof.
  intro HW. split.
  - destruct (encryptJson_rejected P v passphrase w HW) as (e & w' & Hrun & _). eauto.
  - intros payload w2. now apply verifyAndDecrypt_rejected.
Qed.

Lemma encrypt_then_decrypt_rejects_witness :
  (exists e w',
     encryptJson web_crypto Run.state1 "correct-horse" (Toy.world 1 []) = (Throw e, w')) /\
  (exists e w',
     verifyAndDecrypt web_crypto Run.envelope "correct-horse" (Toy.world 99 [])
     = (Throw e, w')).
Proof.
  destruct (encrypt_then_decrypt_rejects web_crypto Run.state1 "correct-horse"
              (Toy.world 1 []) web_crypto_rejects) as [Henc Hdec].
  split; [exact Henc | exact (Hdec Run.envelope (Toy.world 99 []))].
Defined.

(** C10, on the code as it runs: on the Web Cryptography API no envelope
    comes out of [encryptJson], and [verifyAndDecrypt] throws for every
    payload whose [ts] was replaced, whatever the number: no altered envelope
    decrypts to [v]. *)
Theorem altered_ts_never_decrypts P v passphrase w :
  WebCrypto P ->
  (exists e w', encryptJson P v passphrase w = (Throw e, w')) /\
  (forall payload t w2,
     exists e w',
       verifyAndDecrypt P (js_set payload "ts" (JNum t)) passphrase w2 = (Throw e, w')).
Proof.
  intro HW. split.
  - destruct (encryptJson_rejected P v passphrase w HW) as (e & w' & Hrun & _). eauto.
  - intros payload t w2. now apply verifyAndDecrypt_rejected.
Qed.

Lemma altered_ts_never_decrypts_witness :
  (exists e w',
     encryptJson web_crypto Run.state1 "correct-horse" (Toy.world 1 []) = (Throw e, w')) /\
  (exists e w',
     verifyAndDecrypt web_crypto (js_set Run.envelope "ts" (JNum 0)) "correct-horse"
       (Toy.world 99 [])
     = (Throw e, w')).
Proof.
  destruct (altered_ts_never_decrypts web_crypto Run.state1 "correct-horse"
              (Toy.world 1 []) web_crypto_rejects) as [Henc Hdec].
  split; [exact Henc | exact (Hdec Run.envelope 0 (Toy.world 99 []))].
Defined.

(** C9: a payload whose [v] is not the number 1 is rejected with the error
    of the structural check, before any platform call: the world is
    unchanged, whatever the other fields hold. *)
Theorem rejects_other_versions P payload passphrase w :
  strict_eq_1 (js_get payload "v") = false ->
  verifyAndDecrypt P payload passphrase w
  = (Throw (Error "Decryption failed: Invalid payload structure"), w).
Proof.
  intro Hv. unfold verifyAndDecrypt, try_catch, bind, invalid_payload.
  rewrite Hv. cbn [negb]. rewrite !orb_true_r. cbn [orb]. reflexivity.
Qed.

Lemma rejects_other_versions_witness :
  js_get Run.version2 "v" = Some (JNum 2) /\
  verifyAndDecrypt Toy.platform Run.version2 "correct-horse" (Toy.world 99 [])
  = (Throw (Error "Decryption failed: Invalid payload structure"), Toy.world 99 []).
Proof.
  split; [reflexivity|].
  apply (rejects_other_versions Toy.platform Run.version2 "correct-horse" (Toy.world 99 [])).
  reflexivity.
Defined.

(** C6, on the code as it runs: on the Web Cryptography API a payload that
    passes the structural check and whose fields decode is rejected at the
    first key derivation.  [verifyAndDecrypt] throws the error of
    [deriveKey] under the prefix of its catch block, and its platform calls
    are the key import and that derivation: no MAC is recomputed or
    verified, and no AES-GCM decryption is attempted. *)
Theorem decrypt_rejects_before_mac_check P payload passphrase w salt iv ct mac :
  WebCrypto P ->
  invalid_payload payload = false ->
  base64urlDecode (as_string (js_get payload "salt")) = Ok salt ->
  base64urlDecode (as_string (js_get payload "iv")) = Ok iv ->
  base64urlDecode (as_string (js_get payload "ct")) = Ok ct ->
  base64urlDecode (as_string (js_get payload "mac")) = Ok mac ->
  exists e w',
    verifyAndDecrypt P payload passphrase w
    = (Throw (Error ("Decryption failed: " ++ message e)), w') /\
    pbkdf2 P (utf8_encode P passphrase) salt 100000 = Throw e /\
    trace w' = (trace w ++ [EvImportKey PBKDF2 "deriveKey";
                            EvDeriveKey (utf8_encode P passphrase) salt])%list.
Proof.
  intros HW Hv Hsalt Hiv Hct Hmac.
  unfold verifyAndDecrypt, try_catch, bind at 1. rewrite Hv. unfold ret at 1.
  unfold bind at 1, lift at 1. rewrite Hsalt.
  unfold bind at 1, lift at 1. rewrite Hiv.
  unfold bind at 1, lift at 1. rewrite Hct.
  unfold bind at 1, lift at 1. rewrite Hmac.
  unfold bind at 1.
  destruct (HKDF_rejected P passphrase "enc" 32 (as_string (js_get payload "salt")) w HW)
    as (e & Hrun & He).
  rewrite Hsalt in Hrun, He. rewrite Hrun. unfold throw.
  exists e. eexists. split; [reflexivity|]. split; [exact He|].
  now rewrite trace_add_events.
Qed.

Lemma decrypt_rejects_before_mac_check_witness :
  exists e w',
    verifyAndDecrypt web_crypto Run.forged "pw" (Toy.world 99 [])
    = (Throw (Error ("Decryption failed: " ++ message e)), w') /\
    List.length (trace w') = 2%nat.
Proof.
  destruct (decrypt_rejects_before_mac_check web_crypto Run.forged "pw" (Toy.world 99 [])
              Run.forged_salt ["i"%byte; "v"%byte] ["c"%byte; "t"%byte]
              ["m"%byte; "a"%byte; "c"%byte] web_crypto_rejects)
    as (e & w' & Hrun & _ & Ht); try reflexivity.
  exists e, w'. split; [exact Hrun|]. rewrite Ht. reflexivity.
Defined.

(** In every run, with no assumption on the payload: an AES-GCM decryption is
    the last platform call, and the call before it is the verification of a
    MAC that matched. *)



(** * Loading *)





Lemma network_failure_ok : well_formed_outcome network_failure.
Proof. right. cbn. auto. Qed.

Lemma integrity_failure_ok : well_formed_outcome integrity_failure.
Proof. right. cbn. auto. Qed.

Lemma no_state_ok : well_formed_outcome no_state.
Proof. left. reflexivity. Qed.

Lemma loaded_ok v : well_formed_outcome (mkOutcome v None).
Proof. left. reflexivity. Qed.

Lemma fetch_latest_pointer_ok baseUrl id headers :
  post (fetch_latest_pointer baseUrl id headers) flow_ok.
Proof.
  apply post_try_catch.
  - apply post_bind. intro r. destruct (ok r).
    + apply post_bind. intro d. destruct (_ && _); now apply post_ret.
    + destruct (negb _); [apply post_throw | now apply post_ret].
  - intro e. apply post_ret, network_failure_ok.
Qed.

Lemma load_latest_version_ok P passphrase baseUrl id headers ts :
  post (load_latest_version P passphrase baseUrl id headers ts) flow_ok.
Proof.
  apply post_try_catch.
  - apply post_bind. intro r. destruct (ok r).
    + do 2 (apply post_bind; intro). apply post_ret, loaded_ok.
    + destruct (_ =? _)%Z; [now apply post_ret | apply post_throw].
  - intro e. destruct (is_decrypt_failure e); apply post_ret;
      [exact I | apply network_failure_ok].
Qed.

Lemma try_versions_ok P passphrase baseUrl id headers versions :
  post (try_versions P passphrase baseUrl id headers versions) well_formed_outcome.
Proof.
  induction versions as [|version rest IH]; cbn [try_versions].
  - apply post_ret, integrity_failure_ok.
  - apply post_bind_with with (R := flow_ok).
    + apply post_try_catch.
      * apply post_bind. intro r. destruct (ok r).
        -- do 2 (apply post_bind; intro). apply post_ret, loaded_ok.
        -- now apply post_ret.
      * intro e. destruct (is_decrypt_failure e); apply post_ret;
          [exact I | apply network_failure_ok].
    + intros [u|o] Hf; [exact IH | now apply post_ret].
Qed.

Lemma list_fallback_ok P passphrase baseUrl id headers :
  post (list_fallback P passphrase baseUrl id headers) well_formed_outcome.
Proof.
  apply post_try_catch.
  - apply post_bind. intro r. destruct (negb (ok r)); [apply post_throw|].
    apply post_bind. intros [| | | |[|x items]|]; try apply post_ret, no_state_ok.
    apply try_versions_ok.
  - intro e. apply post_ret, network_failure_ok.
Qed.

Lemma loadState_ok P passphrase : post (loadState P passphrase) well_formed_outcome.
Proof.
  apply post_try_catch.
  - do 3 (apply post_bind; intro).
    apply post_bind_with with (R := flow_ok); [apply fetch_latest_pointer_ok|].
    intros [latestTs|o] Hf; [|now apply post_ret].
    apply post_bind_with with (R := flow_ok).
    + destruct latestTs; [apply load_latest_version_ok | now apply post_ret].
    + intros [u|o] Hf'; [apply list_fallback_ok | now apply post_ret].
  - intro e. apply post_ret, network_failure_ok.
Qed.

Lemma loadState_returns P passphrase w :
  exists o w', loadState P passphrase w = (Ok o, w').
Proof.
  unfold loadState. apply try_catch_returns. intros e w0. unfold ret. eauto.
Qed.

(** C8: on every platform, for every passphrase and every world (so every
    sequence of HTTP answers), [loadState] returns an outcome and does not
    throw; the outcome's error is [null], ["network"] or ["integrity"], and
    its state is [null] unless the error is [null]. *)
Theorem loadState_never_throws P passphrase w :
  exists o w',
    loadState P passphrase w = (Ok o, w') /\
    (error o = None \/
     (state o = JNull /\ (error o = Some "network" \/ error o = Some "integrity"))).
Proof.
  destruct (loadState_returns P passphrase w) as (o & w' & Hrun).
  exists o, w'. split; [exact Hrun|].
  exact (loadState_ok P passphrase w o w' Hrun).
Qed.

(** Inside the scan an answer that is not 2xx, whatever its status, moves on
    to the next descriptor. *)
Lemma try_versions_passes_over P passphrase baseUrl id headers version rest w r replies :
  network w = Responded r :: replies ->
  ok r = false ->
  try_versions P passphrase baseUrl id headers (version :: rest) w
  = try_versions P passphrase baseUrl id headers rest
      (set_network replies
         (log (EvFetch (mkRequest GET baseUrl id (RVersion (js_get version "ts")) headers None))
              w)).
Proof.
  intros Hnet Hok. cbn [try_versions]. unfold bind at 1, try_catch, bind at 1, fetch.
  rewrite Hnet, Hok. reflexivity.
Qed.

Lemma network_add_events evs w : network (add_events evs w) = network w.
Proof. revert w. induction evs as [|e evs IH]; intro w; [reflexivity|]. cbn. now rewrite IH. Qed.






(** * Saving *)

Lemma add_events_frame evs w :
  timers (add_events evs w) = timers w /\
  debounceTimers (add_events evs w) = debounceTimers w /\
  next_handle (add_events evs w) = next_handle w /\
  clock (add_events evs w) = clock w /\
  debounceMs (add_events evs w) = debounceMs w.
Proof.
  revert w. induction evs as [|e evs IH]; intro w; [repeat split|].
  cbn [add_events fold_left]. fold (add_events evs (log e w)).
  destruct (IH (log e w)) as (H1 & H2 & H3 & H4 & H5).
  now rewrite H1, H2, H3, H4, H5.
Qed.

Lemma deriveId_frame P passphrase w :
  let w' := snd (deriveId P passphrase w) in
  timers w' = timers w /\ debounceTimers w' = debounceTimers w /\
  next_handle w' = next_handle w /\ clock w' = clock w /\ debounceMs w' = debounceMs w.
Proof.
  unfold deriveId, bind, getRandomValues, ret.
  destruct (HKDF_snd P passphrase "id" 16 (base64urlEncode (sampled 16 w))
              (log (EvRandom 16) (set_drawn (drawn w + 16) w))) as (evs & E & _).
  destruct (HKDF P passphrase "id" 16 _ _) as [[out|e] w1]; cbn [snd] in E |- *; subst w1;
    apply (add_events_frame evs (log (EvRandom 16) (set_drawn (drawn w + 16) w))).
Qed.

(** A save whose identifier is not in the registry cancels nothing: the
    timers armed before stay armed and one more is armed. *)
Lemma saveState_unregistered P passphrase stateObj w id w1 :
  deriveId P passphrase w = (Ok id, w1) ->
  assoc id (debounceTimers w) = None ->
  exists w2,
    saveState P passphrase stateObj w = (Ok tt, w2) /\
    timers w2 = (timers w ++ [mkTimer (next_handle w) (clock w + Z.max 0 (debounceMs w))
                                (mkCallback id passphrase stateObj)])%list /\
    debounceTimers w2 = (debounceTimers w ++ [(id, next_handle w)])%list.
Proof.
  intros Hid Hnone.
  destruct (deriveId_frame P passphrase w) as (Ft & Fd & Fh & Fc & Fm).
  rewrite Hid in Ft, Fd, Fh, Fc, Fm. cbn [snd] in Ft, Fd, Fh, Fc, Fm.
  unfold saveState, bind at 1. rewrite Hid.
  unfold bind, Map_has, Map_get, Map_set, setTimeout, clearTimeout, ret.
  rewrite Fd, Hnone. eexists. split; [reflexivity|].
  cbn [timers debounceTimers set_debounceTimers set_next_handle set_timers].
  now rewrite Ft, Fd, Fh, Fc, Fm, Hnone.
Qed.

(** A save whose identifier is registered cancels the timer registered for
    it and arms a new one in its place. *)
Lemma saveState_registered P passphrase stateObj w id w1 h :
  deriveId P passphrase w = (Ok id, w1) ->
  assoc id (debounceTimers w) = Some h ->
  exists w2,
    saveState P passphrase stateObj w = (Ok tt, w2) /\
    timers w2 = (filter (fun t => negb (timer_handle t =? h)%nat) (timers w)
                 ++ [mkTimer (next_handle w) (clock w + Z.max 0 (debounceMs w))
                       (mkCallback id passphrase stateObj)])%list /\
    assoc id (debounceTimers w2) = Some (next_handle w).
Proof.
  intros Hid Hsome.
  destruct (deriveId_frame P passphrase w) as (Ft & Fd & Fh & Fc & Fm).
  rewrite Hid in Ft, Fd, Fh, Fc, Fm. cbn [snd] in Ft, Fd, Fh, Fc, Fm.
  unfold saveState, bind at 1. rewrite Hid.
  unfold bind, Map_has, Map_get, Map_set, setTimeout, clearTimeout, ret.
  cbv beta. rewrite Fd, Hsome. cbv beta iota.
  cbn [timers debounceTimers set_debounceTimers set_next_handle set_timers clock next_handle
       debounceMs].
  rewrite Fd, Hsome. eexists. split; [reflexivity|].
  cbn [timers debounceTimers set_debounceTimers set_next_handle set_timers clock next_handle
       debounceMs].
  rewrite Ft, Fh, Fc, Fm. split; [reflexivity|].
  rewrite Fd, Hsome. clear - Hsome. induction (debounceTimers w) as [|[k v] l IH]; [discriminate|].
  cbn [assoc map fst] in *. destruct (String.eqb_spec k id) as [->|Hne].
  - cbn [assoc]. now rewrite String.eqb_refl.
  - cbn [assoc]. destruct (String.eqb_spec id k) as [E|_]; [now symmetry in E|].
    now apply IH.
Qed.

(** Two saves in a row whose identifiers differ leave two timers armed, one
    per payload, on every platform. *)
Lemma saves_with_distinct_ids P passphrase s1 s2 w id1 wa w2 id2 wb :
  timers w = [] ->
  debounceTimers w = [] ->
  deriveId P passphrase w = (Ok id1, wa) ->
  saveState P passphrase s1 w = (Ok tt, w2) ->
  deriveId P passphrase w2 = (Ok id2, wb) ->
  id1 <> id2 ->
  exists w3,
    saveState P passphrase s2 w2 = (Ok tt, w3) /\
    map timer_cb (timers w3) = [mkCallback id1 passphrase s1; mkCallback id2 passphrase s2].
Proof.
  intros Ht Hd Hid1 Hsave1 Hid2 Hne.
  destruct (saveState_unregistered P passphrase s1 w id1 wa Hid1) as (w2' & Hrun1 & Ht1 & Hd1).
  { now rewrite Hd. }
  rewrite Hsave1 in Hrun1. injection Hrun1 as <-.
  destruct (saveState_unregistered P passphrase s2 w2 id2 wb Hid2) as (w3 & Hrun2 & Ht2 & Hd2).
  { rewrite Hd1, Hd. cbn [app assoc].
    destruct (String.eqb_spec id2 id1) as [E|_]; [now symmetry in E | reflexivity]. }
  exists w3. split; [exact Hrun2|].
  rewrite Ht2, Ht1, Ht. reflexivity.
Qed.

(** C3, on the code: two [saveState] calls with one passphrase, 100 ms
    apart with the default delay of 500 ms.  Where the key derivation goes
    through, they arm two timers under two identifiers; both fire, the first
    with the first payload, and two versions are written.  On the Web
    Cryptography API both calls are rejected before a timer is armed, and no
    save runs.  Neither is the one save with the second payload. *)
Theorem two_saves_fire_twice :
  (let w := Run.two_saves Toy.platform
              (Toy.world 1 [Run.ok_reply; Run.ok_reply; Run.ok_reply; Run.ok_reply]) in
   Run.fired w = [Run.state1; Run.state2] /\ Run.version_puts w = 2%nat) /\
  (let w := Run.two_saves web_crypto
              (Toy.world 1 [Run.ok_reply; Run.ok_reply; Run.ok_reply; Run.ok_reply]) in
   Run.fired w = [] /\ Run.version_puts w = 0%nat /\ timers w = []).
Proof. vm_compute. repeat split; reflexivity. Qed.

(** With an identifier that is the same on every call, the second
    [saveState] cancels the timer of the first: one save runs, with the second
    payload. *)
Example two_saves_debounced :
  let w := Run.two_saves Run.salt_blind
             (Toy.world 1 [Run.ok_reply; Run.ok_reply; Run.ok_reply; Run.ok_reply]) in
  Run.fired w = [Run.state2] /\ Run.version_puts w = 1%nat /\
  timers w = [] /\ debounceTimers w = [].
Proof. vm_compute. repeat split; reflexivity. Qed.

(** * Further properties of the code *)

(** ** Base64url: alphabet and lengths *)

Lemma url_char_safe x : url_safe (url_char (sextet_to_char x)) = true.
Proof. each_sextet x; reflexivity. Qed.

Lemma std_char_sextet x : std_char (sextet_to_char x) = sextet_to_char x.
Proof. each_sextet x; reflexivity. Qed.

Lemma length_string_of_list_byte bs :
  String.length (string_of_list_byte bs) = List.length bs.
Proof.
  unfold string_of_list_byte.
  induction bs as [|b bs IH]; [reflexivity|].
  cbn [map string_of_list_ascii String.length List.length]. now rewrite IH.
Qed.

Lemma to_url_btoa_shape s :
  all_chars url_safe (to_url (btoa s)) = true /\
  String.length (to_url (btoa s)) = ((4 * String.length s + 2) / 3)%nat.
Proof.
  induction s as [|a|a b|a b c r [IHs IHl]] using string_ind3.
  - split; reflexivity.
  - rewrite btoa_1. destruct (enc3 _ _ _) as [[[w x] y] z].
    do 2 (rewrite to_url_cons, url_char_not_pad). change (to_url "==") with "".
    cbn [all_chars String.length]. rewrite !url_char_safe. split; reflexivity.
  - rewrite btoa_2. destruct (enc3 _ _ _) as [[[w x] y] z].
    do 3 (rewrite to_url_cons, url_char_not_pad). change (to_url "=") with "".
    cbn [all_chars String.length]. rewrite !url_char_safe. split; reflexivity.
  - rewrite btoa_3. destruct (enc3 _ _ _) as [[[w x] y] z].
    do 4 (rewrite to_url_cons, url_char_not_pad).
    cbn [all_chars String.length]. rewrite !url_char_safe, IHs, IHl. split; [reflexivity|].
    replace (4 * S (S (S (String.length r))) + 2)%nat
      with ((4 * String.length r + 2) + 4 * 3)%nat by lia.
    rewrite Nat.div_add by discriminate. lia.
Qed.

(** X1: base64urlEncode returns, for every byte array, a string of letters,
    digits, '-' and '_' only (no '+', '/' or '='), of length ceil(4n/3) for n
    bytes. *)
Theorem base64urlEncode_url_safe bs :
  all_chars url_safe (base64urlEncode bs) = true /\
  String.length (base64urlEncode bs) = ((4 * List.length bs + 2) / 3)%nat.
Proof.
  rewrite base64urlEncode_to_url. unfold String_fromCharCode.
  rewrite <- (length_string_of_list_byte bs). apply to_url_btoa_shape.
Qed.

Lemma append_empty_r s : s ++ "" = s.
Proof. induction s as [|c s IH]; [reflexivity|]. cbn. now rewrite IH. Qed.

Lemma std_chars_btoa s : replace_all "_" "/" (replace_all "-" "+" (btoa s)) = btoa s.
Proof.
  assert (Hc : forall x r, replace_all "_" "/" (replace_all "-" "+" (String (sextet_to_char x) r))
                           = String (sextet_to_char x) (replace_all "_" "/" (replace_all "-" "+" r))).
  { intros x r. unfold replace_all. cbn [map_chars].
    change (if (if (sextet_to_char x =? "-")%char then "+"%char else sextet_to_char x) =? "_"
            then "/" else if (sextet_to_char x =? "-")%char then "+" else sextet_to_char x)%char
      with (std_char (sextet_to_char x)).
    now rewrite std_char_sextet. }
  induction s as [|a|a b|a b c r IH] using string_ind3.
  - reflexivity.
  - rewrite btoa_1. destruct (enc3 _ _ _) as [[[w x] y] z]. now rewrite !Hc.
  - rewrite btoa_2. destruct (enc3 _ _ _) as [[[w x] y] z]. now rewrite !Hc.
  - rewrite btoa_3. destruct (enc3 _ _ _) as [[[w x] y] z]. now rewrite !Hc, IH.
Qed.

Lemma base64urlDecode_btoa bs : base64urlDecode (btoa (String_fromCharCode bs)) = Ok bs.
Proof.
  unfold base64urlDecode. rewrite std_chars_btoa, length_btoa_mod4.
  cbn [Nat.sub Nat.modulo Nat.divmod snd string_repeat].
  change ((4 - 0) mod 4)%nat with 0%nat. cbn [string_repeat].
  rewrite append_empty_r, atob_btoa. unfold charCodes, String_fromCharCode.
  now rewrite list_byte_of_string_of_list_byte.
Qed.

Lemma std_char_map str :
  replace_all "_" "/" (replace_all "-" "+" str) = map_chars std_char str.
Proof.
  unfold replace_all. induction str as [|c r IH]; [reflexivity|].
  cbn [map_chars]. now rewrite IH.
Qed.

Lemma url_safe_std_char c :
  url_safe c = true ->
  in_alphabet (std_char c) = true /\ is_ascii_whitespace (std_char c) = false /\
  Ascii.eqb (std_char c) "=" = false.
Proof.
  destruct c as [b0 b1 b2 b3 b4 b5 b6 b7].
  destruct b0, b1, b2, b3, b4, b5, b6, b7; intro H; try discriminate H;
    repeat split; reflexivity.
Qed.

Lemma clean_cons c r :
  clean (String c r) ->
  in_alphabet c = true /\ is_ascii_whitespace c = false /\ Ascii.eqb c "=" = false /\ clean r.
Proof.
  unfold clean. cbn [all_chars]. intro H.
  apply andb_prop in H as [H Hr]. apply andb_prop in H as [H H3].
  apply andb_prop in H as [H1 H2].
  apply negb_true_iff in H2, H3. auto.
Qed.

Lemma url_safe_clean str : all_chars url_safe str = true -> clean (map_chars std_char str).
Proof.
  unfold clean. induction str as [|c r IH]; [reflexivity|].
  cbn [all_chars map_chars]. intro H. apply andb_prop in H as [Hc Hr].
  destruct (url_safe_std_char c Hc) as (H1 & H2 & H3).
  now rewrite H1, H2, H3, IH.
Qed.

Lemma length_map_chars f s : String.length (map_chars f s) = String.length s.
Proof. induction s as [|c r IH]; [reflexivity|]. cbn. now rewrite IH. Qed.

Lemma length_append s t : String.length (s ++ t) = (String.length s + String.length t)%nat.
Proof. induction s as [|c r IH]; [reflexivity|]. cbn. now rewrite IH. Qed.

Lemma filter_ws_clean b pad :
  clean b ->
  filter_chars (fun c => negb (is_ascii_whitespace c)) (b ++ string_repeat "=" pad)
  = b ++ string_repeat "=" pad.
Proof.
  induction b as [|c r IH]; intro H.
  - cbn [append]. induction pad as [|n IHn]; [reflexivity|].
    cbn [string_repeat filter_chars]. now rewrite IHn.
  - apply clean_cons in H as (_ & H2 & _ & Hr).
    cbn [append filter_chars]. now rewrite H2, IH.
Qed.

Lemma strip_padding_clean b pad :
  clean b ->
  strip_padding (b ++ string_repeat "=" pad)
  = b ++ string_repeat "=" (pad - 2).
Proof.
  induction b as [|c r IH]; intro H.
  - cbn [append]. destruct pad as [|[|[|n]]]; try reflexivity.
    cbn [string_repeat strip_padding Nat.sub].
    induction n as [|n IHn]; [reflexivity|].
    cbn [string_repeat strip_padding] in *.
    change ((String "=" (String "=" (string_repeat "=" n)) =? "")%string) with false in *.
    cbn [orb andb] in *.
    destruct n as [|n']; [reflexivity|].
    cbn [string_repeat] in *. cbn [String.eqb Ascii.eqb Bool.eqb andb orb] in *.
    now rewrite IHn.
  - apply clean_cons in H as (_ & _ & H3 & Hr).
    cbn [append strip_padding]. now rewrite H3, IH.
Qed.

Lemma sextets_of_clean b :
  clean b ->
  exists l, sextets_of_string b = Some l /\ List.length l = String.length b.
Proof.
  induction b as [|c r IH]; intro H.
  - now exists [].
  - apply clean_cons in H as (H1 & _ & _ & Hr). destruct (IH Hr) as (l & Hl & Hn).
    unfold in_alphabet in H1. cbn [sextets_of_string].
    destruct (char_to_sextet c) as [x|]; [|discriminate].
    exists (x :: l). rewrite Hl. cbn. now rewrite Hn.
Qed.

Lemma sextets_of_padded b : sextets_of_string (b ++ "=") = None.
Proof.
  induction b as [|c r IH]; [reflexivity|].
  cbn [append sextets_of_string]. rewrite IH. now destruct (char_to_sextet c).
Qed.

Lemma list_ind4 {A} (Q : list A -> Prop) :
  Q [] -> (forall a, Q [a]) -> (forall a b, Q [a; b]) -> (forall a b c, Q [a; b; c]) ->
  (forall a b c d r, Q r -> Q (a :: b :: c :: d :: r)) ->
  forall l, Q l.
Proof.
  intros H0 H1 H2 H3 H4.
  assert (forall l, Q l /\ (forall a, Q (a :: l)) /\ (forall a b, Q (a :: b :: l)) /\
                    (forall a b c, Q (a :: b :: c :: l))) as H.
  { induction l as [|x l (I0 & I1 & I2 & I3)]; repeat split; auto. }
  intro l. apply H.
Qed.

Lemma length_decode_sextets l :
  String.length (decode_sextets l) = (3 * List.length l / 4)%nat.
Proof.
  induction l as [|w|w x|w x y|w x y z r IH] using list_ind4.
  - reflexivity.
  - reflexivity.
  - cbn [decode_sextets]. now destruct (dec4 _ _ _ _) as [[a b] c].
  - cbn [decode_sextets]. now destruct (dec4 _ _ _ _) as [[a b] c].
  - cbn [decode_sextets]. destruct (dec4 _ _ _ _) as [[a b] c].
    cbn [String.length List.length]. rewrite IH.
    replace (3 * S (S (S (S (List.length r)))))%nat
      with (3 * List.length r + 3 * 4)%nat by lia.
    rewrite Nat.div_add by discriminate. lia.
Qed.

Lemma length_list_byte_of_string s : List.length (list_byte_of_string s) = String.length s.
Proof.
  unfold list_byte_of_string. rewrite length_map.
  induction s as [|c r IH]; [reflexivity|]. cbn. now rewrite IH.
Qed.

Lemma atob_clean_padded b pad :
  clean b ->
  (pad <= 2)%nat ->
  ((String.length b + pad) mod 4 = 0)%nat ->
  exists s, atob (b ++ string_repeat "=" pad) = Some s /\
            String.length s = (3 * String.length b / 4)%nat.
Proof.
  intros Hb Hpad Hmod. unfold atob.
  rewrite (filter_ws_clean b pad Hb), length_append.
  assert (Hrep : String.length (string_repeat "=" pad) = pad).
  { clear. induction pad as [|n IH]; [reflexivity|]. cbn. now rewrite IH. }
  rewrite Hrep, Hmod. cbn [Nat.eqb].
  rewrite (strip_padding_clean b pad Hb).
  replace (pad - 2)%nat with 0%nat by lia. cbn [string_repeat]. rewrite append_empty_r.
  destruct (sextets_of_clean b Hb) as (l & Hl & Hn). rewrite Hl.
  destruct (Nat.eqb_spec (String.length b mod 4) 1) as [E|_].
  - exfalso. rewrite Nat.Div0.add_mod, E in Hmod.
    destruct pad as [|[|[|p]]]; try discriminate Hmod. lia.
  - eexists. split; [reflexivity|]. now rewrite length_decode_sextets, Hn.
Qed.

(** X2: On a string of url-safe Base64 characters base64urlDecode throws
    (atob's error) exactly when the length is 1 modulo 4; otherwise it returns
    floor(3n/4) bytes for n characters, the missing padding being added by the
    function. *)
Theorem base64urlDecode_url_safe str :
  all_chars url_safe str = true ->
  if (String.length str mod 4 =? 1)%nat
  then base64urlDecode str = Throw atob_error
  else exists bs, base64urlDecode str = Ok bs /\
                  List.length bs = (3 * String.length str / 4)%nat.
Proof.
  intro Hsafe. pose proof (url_safe_clean str Hsafe) as Hb.
  unfold base64urlDecode. rewrite std_char_map, length_map_chars.
  pose proof (length_map_chars std_char str) as Hlen.
  set (b := map_chars std_char str) in *.
  pose proof (Nat.mod_upper_bound (String.length str) 4 ltac:(discriminate)) as Hlt.
  destruct (String.length str mod 4)%nat as [|[|[|[|k]]]] eqn:Hm; [| | | |lia].
  - cbn [Nat.eqb]. destruct (atob_clean_padded b 0 Hb) as (s & Hs & Hn); [lia| |].
    + now rewrite Hlen, Nat.add_0_r.
    + cbn [string_repeat] in Hs |- *. change ((4 - 0) mod 4)%nat with 0%nat.
      cbn [string_repeat]. rewrite Hs. eexists. split; [reflexivity|].
      unfold charCodes. now rewrite length_list_byte_of_string, Hn, Hlen.
  - cbn [Nat.eqb]. change ((4 - 1) mod 4)%nat with 3%nat.
    unfold atob. rewrite (filter_ws_clean b 3 Hb), length_append, Hlen.
    change (String.length (string_repeat "=" 3)) with 3%nat.
    rewrite Nat.Div0.add_mod, Hm. cbn [Nat.add Nat.modulo Nat.divmod fst snd Nat.sub Nat.eqb].
    change ((4 mod 4 =? 0)%nat) with true. cbv iota.
    rewrite (strip_padding_clean b 3 Hb). cbn [Nat.sub string_repeat].
    rewrite sextets_of_padded.
    now destruct (_ =? 1)%nat.
  - cbn [Nat.eqb]. destruct (atob_clean_padded b 2 Hb) as (s & Hs & Hn); [lia| |].
    + now rewrite Hlen, Nat.Div0.add_mod, Hm.
    + change ((4 - 2) mod 4)%nat with 2%nat. rewrite Hs. eexists. split; [reflexivity|].
      unfold charCodes. now rewrite length_list_byte_of_string, Hn, Hlen.
  - cbn [Nat.eqb]. destruct (atob_clean_padded b 1 Hb) as (s & Hs & Hn); [lia| |].
    + now rewrite Hlen, Nat.Div0.add_mod, Hm.
    + change ((4 - 3) mod 4)%nat with 1%nat. rewrite Hs. eexists. split; [reflexivity|].
      unfold charCodes. now rewrite length_list_byte_of_string, Hn, Hlen.
Qed.

Lemma base64urlDecode_url_safe_witness :
  exists bs, base64urlDecode "TWE" = Ok bs /\ List.length bs = 2%nat.
Proof. exact (base64urlDecode_url_safe "TWE" eq_refl). Defined.

(** X3: base64urlDecode inverts base64urlEncode on every byte array, it also
    decodes the padded standard Base64 text that btoa produces for the same
    bytes, and base64urlEncode is injective. *)
Theorem base64url_codec bs :
  base64urlDecode (base64urlEncode bs) = Ok bs /\
  base64urlDecode (btoa (String_fromCharCode bs)) = Ok bs /\
  forall bs', base64urlEncode bs = base64urlEncode bs' -> bs = bs'.
Proof.
  split; [apply base64url_roundtrip|]. split; [apply base64urlDecode_btoa|].
  intros bs' H. now apply base64urlEncode_inj.
Qed.

(** ** concatUint8Arrays on its buffer *)

Lemma fold_sum_acc (arrays : list bytes) acc :
  fold_left (fun sum arr => (sum + List.length arr)%nat) arrays acc
  = (acc + total_length arrays)%nat.
Proof.
  unfold total_length. revert acc. induction arrays as [|a r IH]; intro acc; cbn [fold_left].
  - lia.
  - rewrite IH, (IH (0 + List.length a)%nat). lia.
Qed.

Lemma fold_app_acc (arrays : list bytes) acc :
  fold_left (fun result arr => (result ++ arr)%list) arrays acc = (acc ++ List.concat arrays)%list.
Proof.
  revert acc. induction arrays as [|a r IH]; intro acc; cbn [fold_left List.concat].
  - now rewrite app_nil_r.
  - now rewrite IH, app_assoc.
Qed.

Lemma skipn_repeat_add {A} (x : A) n m : skipn n (repeat x (n + m)) = repeat x m.
Proof. induction n as [|n IH]; [reflexivity|]. exact IH. Qed.

Lemma buffer_fill arrays : forall done k,
  fold_left (fun st arr =>
               let '(result, offset) := st in
               (match result with
                | Some r => Uint8Array_set r arr offset
                | None => None
                end, (offset + List.length arr)%nat))
            arrays
            (Some (done ++ repeat x00 (total_length arrays + k))%list, List.length done)
  = (Some ((done ++ List.concat arrays) ++ repeat x00 k)%list,
     (List.length done + total_length arrays)%nat).
Proof.
  induction arrays as [|a r IH]; intros done k; cbn [fold_left List.concat].
  - cbn. now rewrite app_nil_r, Nat.add_0_r.
  - unfold total_length at 1. cbn [fold_left]. rewrite fold_sum_acc. cbn [Nat.add].
    unfold Uint8Array_set.
    rewrite length_app, repeat_length.
    destruct (Nat.leb_spec (List.length done + List.length a)
                (List.length done + (List.length a + total_length r + k))) as [_|H]; [|lia].
    rewrite firstn_app, firstn_all, Nat.sub_diag. cbn [firstn]. rewrite app_nil_r.
    rewrite skipn_app, skipn_all2 by lia. cbn [app].
    replace (List.length done + List.length a - List.length done)%nat
      with (List.length a) by lia.
    rewrite <- Nat.add_assoc, skipn_repeat_add.
    replace (done ++ a ++ repeat x00 (total_length r + k))%list
      with ((done ++ a) ++ repeat x00 (total_length r + k))%list by now rewrite app_assoc.
    replace (List.length done + List.length a)%nat with (List.length (done ++ a))
      by now rewrite length_app.
    rewrite IH, length_app. unfold total_length at 2. cbn [fold_left].
    rewrite fold_sum_acc, <- !app_assoc. f_equal. lia.
Qed.

(** X4: concatUint8Arrays, with its zero-filled buffer, running offset and
    result.set calls written out, never writes out of range and returns the
    arrays joined in argument order (so the MAC input concatUint8Arrays(salt,
    iv, ct) is salt||iv||ct); the result's length is the sum of the lengths.
    *)
Theorem concatUint8Arrays_buffer_correct arrays :
  concatUint8Arrays_buffer arrays = Some (concatUint8Arrays arrays) /\
  concatUint8Arrays arrays = List.concat arrays /\
  List.length (concatUint8Arrays arrays) = total_length arrays.
Proof.
  assert (Hc : concatUint8Arrays arrays = List.concat arrays).
  { unfold concatUint8Arrays. now rewrite fold_app_acc. }
  split; [|split; [exact Hc|]].
  - unfold concatUint8Arrays_buffer, Uint8Array_new. cbv zeta.
    match goal with
    | |- fst ?X = _ =>
        assert (HX : X = (Some (([] ++ List.concat arrays) ++ repeat x00 0)%list,
                          (List.length (@nil byte) + total_length arrays)%nat))
    end.
    { rewrite <- (buffer_fill arrays [] 0). cbn [app List.length].
      now rewrite Nat.add_0_r. }
    rewrite HX. cbn [fst app repeat]. now rewrite app_nil_r, Hc.
  - rewrite Hc. unfold total_length.
    induction arrays as [|a r IH]; [reflexivity|].
    cbn [List.concat fold_left]. rewrite length_app, fold_sum_acc.
    unfold total_length in *.
    assert (Hr : concatUint8Arrays r = List.concat r) by (unfold concatUint8Arrays; now rewrite fold_app_acc).
    rewrite (IH Hr). lia.
Qed.

(** ** Frames: what a computation leaves alone *)

Lemma set_drawn_same w : set_drawn (drawn w + 0) w = w.
Proof. destruct w. cbn. now rewrite Nat.add_0_r. Qed.

Lemma set_drawn_add_events n evs w :
  set_drawn n (add_events evs w) = add_events evs (set_drawn n w).
Proof.
  revert w. induction evs as [|e evs IH]; intro w; [reflexivity|].
  cbn [add_events fold_left]. fold (add_events evs (log e w)).
  fold (add_events evs (log e (set_drawn n w))). now rewrite IH.
Qed.

Lemma rest_of_inv a b :
  rest_of a = rest_of b ->
  entropy a = entropy b /\ clock a = clock b /\ firebase a = firebase b /\
  appCheckErrorLogged a = appCheckErrorLogged b /\
  FB_FUNCTION_BASE a = FB_FUNCTION_BASE b /\ network a = network b /\
  timers a = timers b /\ next_handle a = next_handle b /\
  debounceMs a = debounceMs b /\ debounceTimers a = debounceTimers b.
Proof.
  destruct a, b. unfold rest_of. cbn. intro H. injection H. intros. repeat split; assumption.
Qed.

Lemma rest_of_add_events evs w : rest_of (add_events evs w) = rest_of w.
Proof.
  revert w. induction evs as [|e evs IH]; intro w; [reflexivity|].
  cbn [add_events fold_left]. fold (add_events evs (log e w)). now rewrite IH.
Qed.

Lemma quiet_ret {A} (a : A) : quiet 0 (ret a).
Proof. intro w. exists []. cbn. now rewrite set_drawn_same. Qed.

Lemma quiet_throw {A} e : quiet 0 (@throw A e).
Proof. intro w. exists []. cbn. now rewrite set_drawn_same. Qed.

Lemma quiet_lift {A} (r : result A) : quiet 0 (lift r).
Proof. intro w. exists []. cbn. now rewrite set_drawn_same. Qed.

Lemma quiet_call {A} ev (r : result A) : is_local_event ev = true -> quiet 0 (call ev r).
Proof.
  intros H w. exists [ev]. cbn [call snd add_events fold_left forallb].
  now rewrite set_drawn_same, H.
Qed.

Lemma quiet_getRandomValues n : quiet n (getRandomValues n).
Proof. intro w. exists [EvRandom n]. split; reflexivity. Qed.

Lemma quiet_Date_now : quiet 0 Date_now.
Proof. intro w. exists []. cbn. now rewrite set_drawn_same. Qed.

Lemma quiet_compose n1 n2 ev1 ev2 w :
  add_events ev2 (set_drawn (drawn (add_events ev1 (set_drawn (drawn w + n1) w)) + n2)
                    (add_events ev1 (set_drawn (drawn w + n1) w)))
  = add_events (ev1 ++ ev2) (set_drawn (drawn w + (n1 + n2)) w).
Proof.
  rewrite drawn_add_events, set_drawn_add_events, <- add_events_app.
  cbn [drawn set_drawn]. now rewrite Nat.add_assoc.
Qed.

(** Sequencing when the continuation draws nothing. *)
Lemma quiet_bind {A B} n (m : M A) (k : A -> M B) :
  quiet n m -> (forall a, quiet 0 (k a)) -> quiet n (bind m k).
Proof.
  intros Hm Hk w. unfold bind. destruct (Hm w) as (ev1 & E1 & L1).
  destruct (m w) as [[a|e] w1]; cbn [snd] in E1; subst w1.
  - destruct (Hk a (add_events ev1 (set_drawn (drawn w + n) w))) as (ev2 & E2 & L2).
    exists (ev1 ++ ev2)%list. rewrite E2, quiet_compose, Nat.add_0_r.
    split; [reflexivity|]. now rewrite forallb_app, L1, L2.
  - exists ev1. auto.
Qed.

(** Sequencing after a step that cannot throw. *)
Lemma quiet_bind_after {A B} n1 n2 (m : M A) (k : A -> M B) :
  quiet n1 m -> (forall w, exists a w', m w = (Ok a, w')) ->
  (forall a, quiet n2 (k a)) -> quiet (n1 + n2) (bind m k).
Proof.
  intros Hm Hok Hk w. unfold bind. destruct (Hm w) as (ev1 & E1 & L1).
  destruct (Hok w) as (a & w1 & Hrun). rewrite Hrun in E1 |- *. cbn [snd] in E1. subst w1.
  destruct (Hk a (add_events ev1 (set_drawn (drawn w + n1) w))) as (ev2 & E2 & L2).
  exists (ev1 ++ ev2)%list. rewrite E2, quiet_compose.
  split; [reflexivity|]. now rewrite forallb_app, L1, L2.
Qed.

Lemma quiet_try_catch {A} n (m : M A) (h : JsError -> M A) :
  quiet n m -> (forall e, quiet 0 (h e)) -> quiet n (try_catch m h).
Proof.
  intros Hm Hh w. unfold try_catch. destruct (Hm w) as (ev1 & E1 & L1).
  destruct (m w) as [[a|e] w1]; cbn [snd] in E1; subst w1.
  - exists ev1. auto.
  - destruct (Hh e (add_events ev1 (set_drawn (drawn w + n) w))) as (ev2 & E2 & L2).
    exists (ev1 ++ ev2)%list. rewrite E2, quiet_compose, Nat.add_0_r.
    split; [reflexivity|]. now rewrite forallb_app, L1, L2.
Qed.

Lemma quiet_if {A} n (b : bool) (m1 m2 : M A) :
  quiet n m1 -> quiet n m2 -> quiet n (if b then m1 else m2).
Proof. now destruct b. Qed.

Ltac quiet_step :=
  first
    [ apply quiet_ret | apply quiet_throw | apply quiet_lift | apply quiet_Date_now
    | apply quiet_call; reflexivity
    | apply quiet_if
    | apply quiet_bind; [|intro] ].

Lemma quiet_importKey raw alg usage : quiet 0 (importKey raw alg usage).
Proof. unfold importKey. quiet_step. Qed.

Lemma quiet_HKDF P passphrase info lengthBytes saltB64u :
  quiet 0 (HKDF P passphrase info lengthBytes saltB64u).
Proof.
  unfold HKDF, importKey, deriveKey_PBKDF2, deriveBits_HKDF. repeat quiet_step.
Qed.

Lemma quiet_deriveId P passphrase : quiet 16 (deriveId P passphrase).
Proof.
  unfold deriveId. apply quiet_bind; [apply quiet_getRandomValues|]. intro salt.
  apply quiet_bind; [apply quiet_HKDF|]. intro. quiet_step.
Qed.

Lemma quiet_verifyAndDecrypt P payload passphrase :
  quiet 0 (verifyAndDecrypt P payload passphrase).
Proof.
  unfold verifyAndDecrypt. apply quiet_try_catch; [|intro; quiet_step].
  apply quiet_bind; [repeat quiet_step|]. intro.
  do 4 (apply quiet_bind; [quiet_step|]; intro).
  do 2 (apply quiet_bind; [apply quiet_HKDF|]; intro).
  do 2 (apply quiet_bind; [apply quiet_importKey|]; intro).
  unfold verify_HMAC, decrypt_AES_GCM. repeat quiet_step.
Qed.

Lemma quiet_encryptJson P obj passphrase : quiet 28 (encryptJson P obj passphrase).
Proof.
  unfold encryptJson.
  change 28%nat with (16 + 12)%nat.
  apply quiet_bind_after; [apply quiet_getRandomValues | intro w; unfold getRandomValues; eauto |].
  intro salt.
  apply quiet_bind; [apply quiet_getRandomValues|]. intro iv.
  do 2 (apply quiet_bind; [apply quiet_HKDF|]; intro).
  do 2 (apply quiet_bind; [apply quiet_importKey|]; intro).
  unfold encrypt_AES_GCM, sign_HMAC. repeat quiet_step.
Qed.

(** ** deriveId *)

Lemma local_not_fetch evs :
  forallb is_local_event evs = true -> existsb is_fetch_event evs = false.
Proof.
  induction evs as [|e evs IH]; [reflexivity|]. cbn [forallb existsb].
  intro H. apply andb_prop in H as [He Hr]. rewrite (IH Hr).
  now destruct e.
Qed.

Lemma quiet_world {A} n (m : M A) :
  quiet n m ->
  forall w,
    drawn (snd (m w)) = (drawn w + n)%nat /\
    rest_of (snd (m w)) = rest_of w /\
    exists evs, trace (snd (m w)) = (trace w ++ evs)%list /\
                forallb is_local_event evs = true.
Proof.
  intros Hq w. destruct (Hq w) as (evs & E & L). rewrite E.
  rewrite drawn_add_events, rest_of_add_events, trace_add_events. repeat split.
  exists evs. auto.
Qed.

(** X5: Whether it returns or throws, deriveId takes exactly 16 bytes from the
    random source and leaves the clock, the pending HTTP answers, the timers
    and the debounce registry as they were; the platform calls it adds contain
    no fetch. *)
Theorem deriveId_effects P passphrase w :
  let w' := snd (deriveId P passphrase w) in
  drawn w' = (drawn w + 16)%nat /\ entropy w' = entropy w /\
  clock w' = clock w /\ network w' = network w /\
  timers w' = timers w /\ debounceTimers w' = debounceTimers w /\
  exists evs, trace w' = (trace w ++ evs)%list /\ existsb is_fetch_event evs = false.
Proof.
  destruct (quiet_world 16 _ (quiet_deriveId P passphrase) w) as (Hd & Hr & evs & Ht & Hl).
  cbv zeta. apply rest_of_inv in Hr as (He & Hc & _ & _ & _ & Hn & Hti & _ & _ & Hdt).
  repeat split; try assumption. exists evs. split; [exact Ht | now apply local_not_fetch].
Qed.

(** ** verifyAndDecrypt: refusals and effects *)

(** X6: Every error verifyAndDecrypt throws has a message that starts with
    'Decryption failed: ', so loadState's test on the message classifies each
    of them as a decryption failure. *)
Theorem verifyAndDecrypt_errors P payload passphrase w e w' :
  verifyAndDecrypt P payload passphrase w = (Throw e, w') ->
  (exists m, message e = "Decryption failed: " ++ m) /\ is_decrypt_failure e = true.
Proof.
  unfold verifyAndDecrypt, try_catch, throw.
  destruct (bind _ _ w) as [[v|e0] w1]; [discriminate|].
  intros [= <- _]. split; [now exists (message e0) | reflexivity].
Qed.

Lemma verifyAndDecrypt_errors_witness :
  is_decrypt_failure (Error "Decryption failed: Invalid payload structure") = true.
Proof.
  exact (proj2 (verifyAndDecrypt_errors web_crypto JNull "pw" (Toy.world 1 [])
                  (Error "Decryption failed: Invalid payload structure") (Toy.world 1 [])
                  eq_refl)).
Defined.

(** X7: If salt, iv, ct or mac of the payload is not a string, or ts is not a
    number, verifyAndDecrypt throws 'Decryption failed: Invalid payload
    structure' and makes no platform call. *)
Theorem rejects_malformed_fields P payload passphrase w :
  typeof_string (js_get payload "salt") && typeof_string (js_get payload "iv") &&
  typeof_string (js_get payload "ct") && typeof_string (js_get payload "mac") &&
  typeof_number (js_get payload "ts") = false ->
  verifyAndDecrypt P payload passphrase w
  = (Throw (Error "Decryption failed: Invalid payload structure"), w).
Proof.
  intro H. unfold verifyAndDecrypt, try_catch, bind, invalid_payload.
  assert (Hinv : negb (truthy payload) || negb (typeof_object payload)
                 || negb (strict_eq_1 (js_get payload "v"))
                 || negb (typeof_string (js_get payload "salt"))
                 || negb (typeof_string (js_get payload "iv"))
                 || negb (typeof_string (js_get payload "ct"))
                 || negb (typeof_string (js_get payload "mac"))
                 || negb (typeof_number (js_get payload "ts")) = true).
  { destruct (typeof_string (js_get payload "salt")), (typeof_string (js_get payload "iv")),
      (typeof_string (js_get payload "ct")), (typeof_string (js_get payload "mac")),
      (typeof_number (js_get payload "ts")); try discriminate H;
      cbn [negb]; rewrite ?orb_true_r; reflexivity. }
  rewrite Hinv. reflexivity.
Qed.

Lemma rejects_malformed_fields_witness :
  verifyAndDecrypt web_crypto (js_set Run.envelope "iv" (JNum 7)) "correct-horse"
    (Toy.world 9 [])
  = (Throw (Error "Decryption failed: Invalid payload structure"), Toy.world 9 []).
Proof.
  apply (rejects_malformed_fields web_crypto (js_set Run.envelope "iv" (JNum 7))
           "correct-horse" (Toy.world 9 [])).
  reflexivity.
Defined.

(** X8: If the payload passes the structure check but one of salt, iv, ct, mac
    is not decodable Base64url, verifyAndDecrypt throws 'Decryption failed: '
    followed by atob's message, before any key is derived. *)
Theorem rejects_undecodable_field P payload passphrase w :
  invalid_payload payload = false ->
  (exists field, In field ["salt"; "iv"; "ct"; "mac"] /\
                 base64urlDecode (as_string (js_get payload field)) = Throw atob_error) ->
  verifyAndDecrypt P payload passphrase w
  = (Throw (Error "Decryption failed: The string to be decoded is not correctly encoded."), w).
Proof.
  intros Hv (field & Hin & Hbad).
  assert (Hdec : forall s, base64urlDecode s = Throw atob_error \/ exists b, base64urlDecode s = Ok b).
  { intro s. unfold base64urlDecode. destruct (atob _); eauto. }
  unfold verifyAndDecrypt, try_catch, bind, lift, throw. rewrite Hv.
  unfold ret at 1.
  destruct (Hdec (as_string (js_get payload "salt"))) as [E1|(b1 & E1)]; rewrite E1;
    [reflexivity|].
  destruct (Hdec (as_string (js_get payload "iv"))) as [E2|(b2 & E2)]; rewrite E2;
    [reflexivity|].
  destruct (Hdec (as_string (js_get payload "ct"))) as [E3|(b3 & E3)]; rewrite E3;
    [reflexivity|].
  destruct (Hdec (as_string (js_get payload "mac"))) as [E4|(b4 & E4)]; rewrite E4;
    [reflexivity|].
  exfalso. cbn [In] in Hin.
  destruct Hin as [<-|[<-|[<-|[<-|[]]]]]; congruence.
Qed.

Lemma rejects_undecodable_field_witness :
  verifyAndDecrypt web_crypto (js_set Run.envelope "ct" (JStr "T")) "correct-horse"
    (Toy.world 9 [])
  = (Throw (Error "Decryption failed: The string to be decoded is not correctly encoded."),
     Toy.world 9 []).
Proof.
  apply (rejects_undecodable_field web_crypto (js_set Run.envelope "ct" (JStr "T"))
           "correct-horse" (Toy.world 9 [])).
  - reflexivity.
  - exists "ct". split; [cbn; auto | reflexivity].
Defined.


(** ** getAppCheckToken *)

Lemma scheduling_inv a b :
  scheduling a = scheduling b ->
  timers a = timers b /\ next_handle a = next_handle b /\ debounceMs a = debounceMs b /\
  debounceTimers a = debounceTimers b /\ clock a = clock b.
Proof.
  destruct a, b. unfold scheduling. cbn. intro H. injection H. intros. repeat split; assumption.
Qed.

Lemma keeps_ret {A X} (f : World -> X) (a : A) : keeps f (ret a).
Proof. intro w. reflexivity. Qed.

Lemma keeps_throw {A X} (f : World -> X) e : keeps f (@throw A e).
Proof. intro w. reflexivity. Qed.

Lemma keeps_bind {A B X} (f : World -> X) (m : M A) (k : A -> M B) :
  keeps f m -> (forall a, keeps f (k a)) -> keeps f (bind m k).
Proof.
  intros Hm Hk w. unfold bind. specialize (Hm w).
  destruct (m w) as [[a|e] w1]; cbn [snd] in *; [now rewrite Hk | exact Hm].
Qed.

Lemma keeps_if {A X} (f : World -> X) (b : bool) (m1 m2 : M A) :
  keeps f m1 -> keeps f m2 -> keeps f (if b then m1 else m2).
Proof. now destruct b. Qed.

Lemma quiet_keeps_scheduling {A} n (m : M A) : quiet n m -> keeps scheduling m.
Proof.
  intros Hq w. destruct (quiet_world n m Hq w) as (_ & Hr & _).
  apply rest_of_inv in Hr as (_ & Hc & _ & _ & _ & _ & Ht & Hh & Hm & Hd).
  unfold scheduling. congruence.
Qed.

Lemma keeps_scheduling_fetch r : keeps scheduling (fetch r).
Proof. intro w. unfold fetch. now destruct (network w) as [|[e|resp] rest]. Qed.

Lemma keeps_scheduling_getAppCheckToken : keeps scheduling getAppCheckToken.
Proof.
  intro w. unfold getAppCheckToken, try_catch.
  destruct (firebase w) as [| |[t|e]]; try reflexivity.
  now destruct (appCheckErrorLogged w).
Qed.

(** X10: getAppCheckToken never throws: it returns the token exactly when
    firebase.appCheck().getToken yields a non-empty one and null otherwise
    (firebase undefined, no appCheck, empty token, or getToken throwing);
    window._appCheckErrorLogged is set once getToken has thrown; no request is
    sent. *)
Theorem getAppCheckToken_never_throws w :
  exists token w',
    getAppCheckToken w = (Ok token, w') /\
    (forall t, token = Some t <-> firebase w = FirebaseAppCheck (Ok (Some t)) /\ t <> "") /\
    (appCheckErrorLogged w' = true <->
     appCheckErrorLogged w = true \/ exists e, firebase w = FirebaseAppCheck (Throw e)) /\
    network w' = network w /\ trace w' = trace w.
Proof.
  unfold getAppCheckToken, try_catch.
  destruct (firebase w) as [| |[[t|]|e]] eqn:F;
    try destruct (String.eqb_spec t ""); try destruct (appCheckErrorLogged w) eqn:L;
    eexists _, _; (split; [reflexivity|]);
    (split; [intro t0; split; [intro H | intros [H Hne]]
            |split; [split; [intro H | intros [H|[e0 H]]] | split; reflexivity]]);
    try discriminate; try congruence; try reflexivity;
    try (left; assumption); try (right; eexists; reflexivity).
  all: try (injection H as <-; split; [reflexivity | assumption]).
  all: left; reflexivity.
Qed.

(** ** saveState *)

Lemma assoc_filter_out {A} (id k : string) (l : list (string * A)) :
  assoc k (filter (fun e => negb (String.eqb (fst e) id)) l)
  = if String.eqb k id then None else assoc k l.
Proof.
  induction l as [|[k' v] l IH]; [now destruct (String.eqb k id)|].
  cbn [filter fst assoc]. destruct (String.eqb_spec k' id) as [->|Hne]; cbn [negb].
  - rewrite IH. destruct (String.eqb_spec k id) as [->|Hk]; [reflexivity|].
    now destruct (String.eqb_spec k id).
  - cbn [assoc]. rewrite IH. destruct (String.eqb_spec k id) as [->|Hk]; [|reflexivity].
    destruct (String.eqb_spec id k') as [E|_]; [now symmetry in E | reflexivity].
Qed.

(** X11: saveState itself sends no HTTP request, whether it returns or throws:
    the pending answers are untouched and the platform calls it adds contain
    no fetch. *)
Theorem saveState_makes_no_request P passphrase stateObj w :
  let w' := snd (saveState P passphrase stateObj w) in
  network w' = network w /\
  exists evs, trace w' = (trace w ++ evs)%list /\ existsb is_fetch_event evs = false.
Proof.
  cbv zeta.
  destruct (quiet_world 16 _ (quiet_deriveId P passphrase) w) as (_ & Hr & evs & Ht & Hl).
  apply rest_of_inv in Hr as (_ & _ & _ & _ & _ & Hn & _ & _ & _ & _).
  assert (H : network (snd (saveState P passphrase stateObj w))
              = network (snd (deriveId P passphrase w)) /\
              trace (snd (saveState P passphrase stateObj w))
              = trace (snd (deriveId P passphrase w))).
  { unfold saveState. set (k := fun id : string => _). unfold bind.
    destruct (deriveId P passphrase w) as [[id|e] w1]; [|split; reflexivity].
    subst k. unfold bind, Map_has, Map_get, Map_set, setTimeout, clearTimeout, ret. cbv beta.
    destruct (assoc id (debounceTimers w1)) as [h|] eqn:Hreg; cbv beta iota;
      rewrite ?Hreg; split; reflexivity. }
  destruct H as [H1 H2]. rewrite H1, H2. split; [exact Hn|].
  exists evs. split; [exact Ht | now apply local_not_fetch].
Qed.

(** X12: If deriveId throws, saveState throws the same error and neither arms
    nor cancels a timer nor changes the debounce registry. *)
Theorem saveState_fails_cleanly P passphrase stateObj w e w1 :
  deriveId P passphrase w = (Throw e, w1) ->
  saveState P passphrase stateObj w = (Throw e, w1) /\
  timers w1 = timers w /\ debounceTimers w1 = debounceTimers w.
Proof.
  intro Hid.
  pose proof (quiet_keeps_scheduling 16 _ (quiet_deriveId P passphrase) w) as Hs.
  rewrite Hid in Hs. cbn [snd] in Hs. apply scheduling_inv in Hs as (Ft & _ & _ & Fd & _).
  unfold saveState, bind at 1. rewrite Hid. auto.
Qed.

Lemma saveState_fails_cleanly_witness :
  exists w1,
    saveState web_crypto "pw" Run.state1 (Toy.world 1 [])
    = (Throw Toy.operation_error, w1) /\
    timers w1 = [] /\ debounceTimers w1 = [].
Proof.
  destruct (deriveId web_crypto "pw" (Toy.world 1 [])) as [[id|e] w1] eqn:Hid;
    [vm_compute in Hid; discriminate|].
  assert (e = Toy.operation_error) as -> by (vm_compute in Hid; now injection Hid as <- _).
  exists w1.
  exact (saveState_fails_cleanly web_crypto "pw" Run.state1 (Toy.world 1 [])
           Toy.operation_error w1 Hid).
Defined.

(** ** The timer callback *)

Lemma keeps_scheduling_saveStateInternal P passphrase stateObj :
  keeps scheduling (saveStateInternal P passphrase stateObj).
Proof.
  unfold saveStateInternal.
  apply keeps_bind; [apply (quiet_keeps_scheduling 16), quiet_deriveId|]. intro id.
  apply keeps_bind; [apply (quiet_keeps_scheduling 28), quiet_encryptJson|]. intro e.
  apply keeps_bind; [apply keeps_scheduling_getAppCheckToken|]. intro token.
  apply keeps_bind; [intro w; reflexivity|]. intro baseUrl.
  apply keeps_bind; [apply keeps_scheduling_fetch|]. intro r1.
  apply keeps_if; [apply keeps_throw|].
  apply keeps_bind; [apply keeps_scheduling_fetch|]. intro r2.
  apply keeps_if; [apply keeps_throw | apply keeps_ret].
Qed.

(** X13: After the debounce timer's callback has run, whether
    saveStateInternal returned or threw, the registry has no entry under the
    callback's id, its other entries are unchanged, and no timer was armed or
    cancelled. *)
Theorem timer_callback_clears_entry P cb w :
  let w' := snd (timer_callback P cb w) in
  assoc (cb_id cb) (debounceTimers w') = None /\
  (forall k, k <> cb_id cb -> assoc k (debounceTimers w') = assoc k (debounceTimers w)) /\
  timers w' = timers w.
Proof.
  cbv zeta.
  pose proof (keeps_scheduling_saveStateInternal P (cb_passphrase cb) (cb_stateObj cb) w) as Hs.
  unfold timer_callback, try_catch, bind.
  destruct (saveStateInternal P (cb_passphrase cb) (cb_stateObj cb) w) as [[u|e] w1];
    cbn [snd] in Hs; apply scheduling_inv in Hs as (Ht & _ & _ & Hd & _);
    cbn [Map_delete throw snd debounceTimers timers set_debounceTimers];
    rewrite Hd, Ht; (split; [|split; [|reflexivity]]);
    try (now rewrite assoc_filter_out, String.eqb_refl);
    intros k Hk; rewrite assoc_filter_out; now destruct (String.eqb_spec k (cb_id cb)).
Qed.

(** ** The scan of loadState *)

Lemma requests_local evs : forallb is_local_event evs = true -> requests evs = [].
Proof.
  induction evs as [|e evs IH]; [reflexivity|]. cbn [forallb]. intro H.
  apply andb_prop in H as [He H]. destruct e; try discriminate He; cbn; auto.
Qed.

Lemma quiet_requests {A} n (m : M A) :
  quiet n m ->
  forall w, requests (trace (snd (m w))) = requests (trace w) /\
            network (snd (m w)) = network w.
Proof.
  intros Hq w. destruct (quiet_world n m Hq w) as (_ & Hr & evs & Ht & Hl).
  apply rest_of_inv in Hr as (_ & _ & _ & _ & _ & Hn & _ & _ & _ & _).
  split; [|exact Hn]. now rewrite Ht, requests_app, (requests_local evs Hl), app_nil_r.
Qed.

Lemma fixed_ret {A} (a : A) : fixed (ret a).
Proof. intros w w0. reflexivity. Qed.

Lemma fixed_throw {A} e : fixed (@throw A e).
Proof. intros w w0. reflexivity. Qed.

Lemma fixed_lift {A} (r : result A) : fixed (lift r).
Proof. intros w w0. reflexivity. Qed.

Lemma fixed_call {A} ev (r : result A) : fixed (call ev r).
Proof. intros w w0. reflexivity. Qed.

Lemma fixed_bind {A B} (m : M A) (k : A -> M B) :
  fixed m -> (forall a, fixed (k a)) -> fixed (bind m k).
Proof.
  intros Hm Hk w w0. unfold bind. specialize (Hm w w0).
  destruct (m w) as [[a|e] w1], (m w0) as [[a0|e0] w2]; cbn [fst] in Hm; try discriminate Hm.
  - injection Hm as <-. apply Hk.
  - cbn [fst]. now injection Hm as <-.
Qed.

Lemma fixed_try_catch {A} (m : M A) (h : JsError -> M A) :
  fixed m -> (forall e, fixed (h e)) -> fixed (try_catch m h).
Proof.
  intros Hm Hh w w0. unfold try_catch. specialize (Hm w w0).
  destruct (m w) as [[a|e] w1], (m w0) as [[a0|e0] w2]; cbn [fst] in Hm; try discriminate Hm.
  - cbn [fst]. exact Hm.
  - injection Hm as <-. apply Hh.
Qed.

Lemma fixed_if {A} (b : bool) (m1 m2 : M A) : fixed m1 -> fixed m2 -> fixed (if b then m1 else m2).
Proof. now destruct b. Qed.

Lemma fixed_HKDF P passphrase info lengthBytes saltB64u :
  fixed (HKDF P passphrase info lengthBytes saltB64u).
Proof. intros w w0. now rewrite !HKDF_fst. Qed.

Ltac fixed_step :=
  first
    [ apply fixed_ret | apply fixed_throw | apply fixed_lift | apply fixed_call
    | apply fixed_HKDF | apply fixed_if
    | apply fixed_bind; [|intro] ].

Lemma fixed_verifyAndDecrypt P payload passphrase : fixed (verifyAndDecrypt P payload passphrase).
Proof.
  unfold verifyAndDecrypt, importKey, verify_HMAC, decrypt_AES_GCM.
  apply fixed_try_catch; [|intro; fixed_step]. repeat fixed_step.
Qed.

Lemma verifyAndDecrypt_fst P payload passphrase w :
  fst (verifyAndDecrypt P payload passphrase w) = decrypted P payload passphrase.
Proof. apply fixed_verifyAndDecrypt. Qed.

Lemma verifyAndDecrypt_throws P payload passphrase w e w' :
  verifyAndDecrypt P payload passphrase w = (Throw e, w') -> is_decrypt_failure e = true.
Proof.
  unfold verifyAndDecrypt, try_catch, throw.
  destruct (bind _ _ w) as [[v|e0] w1]; [discriminate|].
  intros [= <- _]. reflexivity.
Qed.

Lemma verifyAndDecrypt_run P payload passphrase w :
  exists w', verifyAndDecrypt P payload passphrase w = (decrypted P payload passphrase, w') /\
             network w' = network w /\ requests (trace w') = requests (trace w).
Proof.
  pose proof (verifyAndDecrypt_fst P payload passphrase w) as Hf.
  destruct (quiet_requests 0 _ (quiet_verifyAndDecrypt P payload passphrase) w) as (Hr & Hn).
  destruct (verifyAndDecrypt P payload passphrase w) as [res w'].
  cbn [fst snd] in *. subst res. eauto.
Qed.

(** One step of the scan past an answer it does not stop at. *)
Lemma try_versions_step_over P passphrase baseUrl id headers version rest w o replies :
  network w = o :: replies ->
  passed_over P passphrase o = true ->
  exists w',
    try_versions P passphrase baseUrl id headers (version :: rest) w
    = try_versions P passphrase baseUrl id headers rest w' /\
    network w' = replies /\
    requests (trace w') = (requests (trace w) ++ [scan_get baseUrl id headers version])%list.
Proof.
  intros Hnet Hover. cbn [try_versions]. unfold bind at 1, try_catch, bind at 1, fetch.
  rewrite Hnet.
  assert (Hlog : forall w2, trace w2 = (trace w ++ [EvFetch (scan_get baseUrl id headers version)])%list ->
                 requests (trace w2)
                 = (requests (trace w) ++ [scan_get baseUrl id headers version])%list).
  { intros w2 ->. now rewrite requests_app. }
  destruct o as [e|r]; cbn [passed_over] in Hover.
  { rewrite Hover. unfold ret at 1. eexists. split; [reflexivity|].
    split; [reflexivity | now apply Hlog]. }
  destruct (ok r).
  - destruct (body r) as [payload|e] eqn:Hbody.
    2:{ unfold bind at 1, Response_json, lift. rewrite Hbody, Hover. unfold ret at 1.
        eexists. split; [reflexivity|]. split; [reflexivity | now apply Hlog]. }
    unfold bind at 1, Response_json, lift. rewrite Hbody. unfold bind at 1.
    match goal with
    | |- context [verifyAndDecrypt P payload passphrase ?w0] =>
        destruct (verifyAndDecrypt_run P payload passphrase w0) as (w1 & Hrun & Hn & Hreq);
        pose proof (verifyAndDecrypt_throws P payload passphrase w0) as Hthrow;
        rewrite Hrun in *
    end.
    destruct (decrypted P payload passphrase) as [s|e]; [discriminate|].
    rewrite (Hthrow e w1 eq_refl). unfold ret at 1.
    exists w1. split; [reflexivity|]. split; [exact Hn|].
    rewrite Hreq. cbn [trace set_network log]. now rewrite requests_app.
  - unfold ret at 1. eexists. split; [reflexivity|]. split; [reflexivity|].
    cbn [trace set_network log]. now rewrite requests_app.
Qed.

Lemma try_versions_scan P passphrase baseUrl id headers skipped later :
  forall replies rest w,
    network w = (replies ++ rest)%list ->
    List.length replies = List.length skipped ->
    forallb (passed_over P passphrase) replies = true ->
    exists w',
      try_versions P passphrase baseUrl id headers (skipped ++ later) w
      = try_versions P passphrase baseUrl id headers later w' /\
      network w' = rest /\
      requests (trace w')
      = (requests (trace w) ++ map (scan_get baseUrl id headers) skipped)%list.
Proof.
  induction skipped as [|version skipped IH]; intros replies rest w Hnet Hlen Hall.
  - destruct replies; [|discriminate]. exists w. rewrite app_nil_r. auto.
  - destruct replies as [|o replies]; [discriminate|].
    cbn [forallb] in Hall. apply andb_prop in Hall as [Ho Hall].
    destruct (try_versions_step_over P passphrase baseUrl id headers version
                (skipped ++ later) w o (replies ++ rest) Hnet Ho) as (w1 & E1 & N1 & R1).
    destruct (IH replies rest w1 N1 ltac:(now injection Hlen) Hall) as (w2 & E2 & N2 & R2).
    exists w2. cbn [app]. rewrite E1, E2. split; [reflexivity|]. split; [exact N2|].
    rewrite R2, R1, <- app_assoc. reflexivity.
Qed.

(** X14: The scan loop of loadState, taken by itself: if every listed version
    is answered with a non-2xx status (whatever the status), with an envelope
    that verifyAndDecrypt refuses, or with an error whose message reads like a
    decryption failure, the loop requests each version once, in order, and
    ends with {state: null, error: 'integrity'}. *)
Theorem scan_exhausted P passphrase baseUrl id headers versions replies rest w :
  network w = (replies ++ rest)%list ->
  List.length replies = List.length versions ->
  forallb (passed_over P passphrase) replies = true ->
  exists w',
    try_versions P passphrase baseUrl id headers versions w = (Ok integrity_failure, w') /\
    network w' = rest /\
    requests (trace w')
    = (requests (trace w) ++ map (scan_get baseUrl id headers) versions)%list.
Proof.
  intros Hnet Hlen Hall.
  destruct (try_versions_scan P passphrase baseUrl id headers versions [] replies rest w
              Hnet Hlen Hall) as (w1 & E1 & N1 & R1).
  rewrite app_nil_r in E1. exists w1. rewrite E1. auto.
Qed.

(** X15: The scan loop of loadState, taken by itself: if, after versions that
    were passed over, a version request is rejected, finds no answer, or is
    answered 2xx with a body that is not JSON (with a message that does not
    read like a decryption failure), the loop stops there with {state: null,
    error: 'network'} and requests no later version. *)
Theorem scan_aborts_on_transport_failure
    P passphrase baseUrl id headers skipped version later replies tail w :
  network w = (replies ++ tail)%list ->
  List.length replies = List.length skipped ->
  forallb (passed_over P passphrase) replies = true ->
  match tail with [] => true | o :: _ => transport_failure o end = true ->
  exists w',
    try_versions P passphrase baseUrl id headers (skipped ++ version :: later) w
    = (Ok network_failure, w') /\
    network w' = List.tl tail /\
    requests (trace w')
    = (requests (trace w) ++ map (scan_get baseUrl id headers) (skipped ++ [version]))%list.
Proof.
  intros Hnet Hlen Hall Hbad.
  destruct (try_versions_scan P passphrase baseUrl id headers skipped (version :: later)
              replies tail w Hnet Hlen Hall) as (w1 & E1 & N1 & R1).
  rewrite E1. cbn [try_versions]. unfold bind at 1, try_catch, bind at 1, fetch. rewrite N1.
  assert (Hreq : forall w2, trace w2 = (trace w1 ++ [EvFetch (scan_get baseUrl id headers version)])%list ->
                 requests (trace w2)
                 = (requests (trace w) ++ map (scan_get baseUrl id headers) (skipped ++ [version]))%list).
  { intros w2 Ht. rewrite Ht, requests_app, R1, map_app, <- app_assoc. reflexivity. }
  destruct tail as [|[e|r] tail].
  - cbn. eexists. split; [reflexivity|]. split; [exact N1 | now apply Hreq].
  - cbn [transport_failure] in Hbad. apply negb_true_iff in Hbad. rewrite Hbad. cbn.
    eexists. split; [reflexivity|]. split; [reflexivity | now apply Hreq].
  - cbn [transport_failure] in Hbad. apply andb_prop in Hbad as [Hok Hbody]. rewrite Hok.
    destruct (body r) as [payload|e] eqn:B; [discriminate|].
    apply negb_true_iff in Hbody.
    unfold bind at 1, Response_json, lift. rewrite B, Hbody. cbn.
    eexists. split; [reflexivity|]. split; [reflexivity | now apply Hreq].
Qed.

Lemma scan_exhausted_witness :
  exists w',
    try_versions web_crypto "correct-horse" "https://example.test/api" "id" []
      [JObj [("ts", JNum 2)]; JObj [("ts", JNum 1)]]
      (Toy.world 7 [Toy.reply 200 Run.forged; Toy.reply 200 Run.version2])
    = (Ok integrity_failure, w') /\
    network w' = [].
Proof.
  destruct (scan_exhausted web_crypto "correct-horse" "https://example.test/api" "id" []
              [JObj [("ts", JNum 2)]; JObj [("ts", JNum 1)]]
              [Toy.reply 200 Run.forged; Toy.reply 200 Run.version2] []
              (Toy.world 7 [Toy.reply 200 Run.forged; Toy.reply 200 Run.version2]))
    as (w' & Hrun & Hn & _).
  - reflexivity.
  - reflexivity.
  - vm_compute. reflexivity.
  - exists w'. split; [exact Hrun | exact Hn].
Defined.

Lemma scan_aborts_on_transport_failure_witness :
  exists w',
    try_versions web_crypto "correct-horse" "https://example.test/api" "id" []
      [JObj [("ts", JNum 2)]; JObj [("ts", JNum 1)]]
      (Toy.world 7 [Toy.reply 200 Run.forged; Rejected fetch_error;
                    Toy.reply 200 Run.envelope])
    = (Ok network_failure, w') /\
    network w' = [Toy.reply 200 Run.envelope].
Proof.
  destruct (scan_aborts_on_transport_failure web_crypto "correct-horse"
              "https://example.test/api" "id" []
              [JObj [("ts", JNum 2)]] (JObj [("ts", JNum 1)]) []
              [Toy.reply 200 Run.forged]
              [Rejected fetch_error; Toy.reply 200 Run.envelope]
              (Toy.world 7 [Toy.reply 200 Run.forged; Rejected fetch_error;
                            Toy.reply 200 Run.envelope]))
    as (w' & Hrun & Hn & _).
  - reflexivity.
  - reflexivity.
  - vm_compute. reflexivity.
  - vm_compute. reflexivity.
  - exists w'. split; [exact Hrun | exact Hn].
Defined.

(** ** The payload of unlock *)

Lemma lastIndexOf_absent c s : occurs c s = false -> lastIndexOf c s = None.
Proof.
  induction s as [|x r IH]; [reflexivity|]. cbn [occurs lastIndexOf]. intro H.
  apply orb_false_elim in H as [Hx Hr]. now rewrite (IH Hr), Hx.
Qed.

Lemma lastIndexOf_last c pre tail :
  occurs c tail = false ->
  lastIndexOf c (pre ++ String c tail) = Some (String.length pre).
Proof.
  intro H. induction pre as [|x r IH]; cbn [String.append lastIndexOf String.length].
  - now rewrite (lastIndexOf_absent c tail H), Ascii.eqb_refl.
  - now rewrite IH.
Qed.

Lemma substring_through c pre tail :
  String.substring 0 (String.length pre + 1) (pre ++ String c tail) = pre ++ String c "".
Proof.
  induction pre as [|x r IH]; cbn [String.append String.length Nat.add String.substring].
  - now destruct tail.
  - now rewrite IH.
Qed.

(** X16: unlock parses the decrypted text only up to its last '}': any
    trailing text without a brace is discarded before JSON.parse, and a text
    without '}' is refused with 'Decrypted data is not valid JSON: No closing
    brace found in decrypted data'; a parse error is rethrown under the same
    prefix. *)
Theorem unlock_payload_cuts_after_last_brace P pre tail :
  occurs "}" tail = false ->
  unlock_payload P tail
  = Throw (Error "Decrypted data is not valid JSON: No closing brace found in decrypted data") /\
  unlock_payload P (pre ++ "}" ++ tail)
  = match JSON_parse P (pre ++ "}") with
    | Ok payload => Ok payload
    | Throw e => Throw (Error ("Decrypted data is not valid JSON: " ++ message e))
    end.
Proof.
  intro H. unfold unlock_payload. split.
  - now rewrite (lastIndexOf_absent _ _ H).
  - change ("}" ++ tail) with (String "}" tail).
    now rewrite (lastIndexOf_last _ pre tail H), substring_through.
Qed.

Lemma unlock_payload_cuts_after_last_brace_witness :
  unlock_payload Toy.platform "padding"
  = Throw (Error "Decrypted data is not valid JSON: No closing brace found in decrypted data") /\
  unlock_payload Toy.platform "{}padding" = Ok (JObj []).
Proof. exact (unlock_payload_cuts_after_last_brace Toy.platform "{" "padding" eq_refl). Defined.

(** ** The order of the scan *)


(** ** The program on the Web Cryptography API *)

(** X18: On the Web Cryptography API (deriveKey from PBKDF2 into an HKDF key
    is rejected, the derived key having no length) HKDF throws for every
    passphrase, label, length and salt; its platform calls are the key import
    and the rejected deriveKey (none when the salt does not decode), and
    deriveBits is never called. *)
Theorem HKDF_rejects_every_argument P passphrase info lengthBytes saltB64u w :
  WebCrypto P ->
  exists e w',
    HKDF P passphrase info lengthBytes saltB64u w = (Throw e, w') /\
    trace w'
    = (trace w ++ match base64urlDecode saltB64u with
                  | Ok salt => [EvImportKey PBKDF2 "deriveKey";
                                EvDeriveKey (utf8_encode P passphrase) salt]
                  | Throw _ => []
                  end)%list.
Proof.
  intro HW.
  destruct (HKDF_rejected P passphrase info lengthBytes saltB64u w HW) as (e & Hrun & _).
  exists e. eexists. split; [exact Hrun|].
  destruct (base64urlDecode saltB64u); [now rewrite trace_add_events | now rewrite app_nil_r].
Qed.

Lemma HKDF_rejects_every_argument_witness :
  exists e w',
    HKDF web_crypto "correct-horse" "enc" 32 "c2FsdA" (Toy.world 0 []) = (Throw e, w') /\
    List.length (trace w') = 2%nat.
Proof.
  destruct (HKDF_rejects_every_argument web_crypto "correct-horse" "enc" 32 "c2FsdA"
              (Toy.world 0 []) web_crypto_rejects) as (e & w' & Hrun & Ht).
  exists e, w'. split; [exact Hrun|]. rewrite Ht. reflexivity.
Defined.

(** X19: On the Web Cryptography API saveState throws the error of deriveKey
    for every passphrase and state, before it looks at the registry: no timer
    is armed or cancelled, the registry is unchanged and no request is sent,
    so no save is ever scheduled. *)
Theorem saveState_rejected_on_web_crypto P passphrase stateObj w :
  WebCrypto P ->
  exists e w',
    saveState P passphrase stateObj w = (Throw e, w') /\
    pbkdf2 P (utf8_encode P passphrase) (sampled 16 w) 100000 = Throw e /\
    timers w' = timers w /\ next_handle w' = next_handle w /\
    debounceTimers w' = debounceTimers w /\
    network w' = network w /\ requests (trace w') = requests (trace w).
Proof.
  intro HW. destruct (deriveId_rejected P passphrase w HW) as (e & Hrun & He).
  unfold saveState, bind at 1. rewrite Hrun.
  exists e. eexists. split; [reflexivity|]. split; [exact He|].
  destruct (add_events_frame
              [EvRandom 16; EvImportKey PBKDF2 "deriveKey";
               EvDeriveKey (utf8_encode P passphrase) (sampled 16 w)]
              (set_drawn (drawn w + 16) w)) as (Ft & Fd & Fh & _).
  rewrite network_add_events, trace_add_events, requests_app, Ft, Fd, Fh.
  cbn. rewrite app_nil_r. repeat split.
Qed.

Lemma saveState_rejected_on_web_crypto_witness :
  exists e w',
    saveState web_crypto "pw" Run.state1 (Toy.world 1 [Run.ok_reply]) = (Throw e, w') /\
    timers w' = [] /\ debounceTimers w' = [] /\ network w' = [Run.ok_reply].
Proof.
  destruct (saveState_rejected_on_web_crypto web_crypto "pw" Run.state1
              (Toy.world 1 [Run.ok_reply]) web_crypto_rejects)
    as (e & w' & Hrun & _ & Ht & _ & Hd & Hn & _).
  exists e, w'. repeat split; assumption.
Defined.

(** X20: On the Web Cryptography API saveStateInternal throws at deriveId for
    every passphrase and state, before any PUT: the pending answers are
    untouched and no request is sent. *)
Theorem saveStateInternal_rejected P passphrase stateObj w :
  WebCrypto P ->
  exists e w',
    saveStateInternal P passphrase stateObj w = (Throw e, w') /\
    network w' = network w /\ requests (trace w') = requests (trace w).
Proof.
  intro HW. destruct (deriveId_rejected P passphrase w HW) as (e & Hrun & _).
  unfold saveStateInternal, bind at 1. rewrite Hrun.
  exists e. eexists. split; [reflexivity|].
  rewrite network_add_events, trace_add_events, requests_app.
  cbn. rewrite app_nil_r. split; reflexivity.
Qed.

Lemma saveStateInternal_rejected_witness :
  exists e w',
    saveStateInternal web_crypto "pw" Run.state1 (Toy.world 1 [Run.ok_reply; Run.ok_reply])
    = (Throw e, w') /\
    network w' = [Run.ok_reply; Run.ok_reply].
Proof.
  destruct (saveStateInternal_rejected web_crypto "pw" Run.state1
              (Toy.world 1 [Run.ok_reply; Run.ok_reply]) web_crypto_rejects)
    as (e & w' & Hrun & Hn & _).
  exists e, w'. split; assumption.
Defined.

(** ** The timestamp of a payload *)

Lemma assoc_map_replace {A} (id k : string) (v : A) (l : list (string * A)) :
  assoc k (map (fun e => if String.eqb (fst e) id then (id, v) else e) l)
  = if String.eqb k id
    then match assoc id l with Some _ => Some v | None => None end
    else assoc k l.
Proof.
  induction l as [|[k' v'] l IH]; [now destruct (String.eqb k id)|].
  cbn [map fst assoc]. destruct (String.eqb_spec k' id) as [->|Hne]; cbn [assoc].
  - rewrite String.eqb_refl. destruct (String.eqb_spec k id); [reflexivity | exact IH].
  - destruct (String.eqb_spec k k') as [->|Hk].
    + now destruct (String.eqb_spec k' id).
    + rewrite IH. destruct (String.eqb_spec k id) as [->|_]; [|reflexivity].
      destruct (String.eqb_spec id k') as [E|_]; [now symmetry in E | reflexivity].
Qed.

(** X21: On every platform, replacing the numeric ts of a payload by any other
    number changes nothing in what verifyAndDecrypt does: same result or
    error, same platform calls. ts enters neither the structure check's
    outcome, nor the MAC input, nor the decryption. *)
Theorem verifyAndDecrypt_ignores_ts P payload t passphrase w :
  typeof_number (js_get payload "ts") = true ->
  verifyAndDecrypt P (js_set payload "ts" (JNum t)) passphrase w
  = verifyAndDecrypt P payload passphrase w.
Proof.
  intro Hts. destruct payload as [| | | | |fields]; try discriminate Hts.
  cbn [js_get] in Hts. destruct (assoc "ts" fields) as [[| |n| | |]|] eqn:E;
    try discriminate Hts.
  unfold js_set. rewrite E. unfold verifyAndDecrypt, invalid_payload.
  cbn [js_get truthy typeof_object]. rewrite !assoc_map_replace, E.
  reflexivity.
Qed.

Lemma verifyAndDecrypt_ignores_ts_witness :
  verifyAndDecrypt web_crypto (js_set Run.envelope "ts" (JNum 0)) "correct-horse"
    (Toy.world 9 [])
  = verifyAndDecrypt web_crypto Run.envelope "correct-horse" (Toy.world 9 []).
Proof.
  apply (verifyAndDecrypt_ignores_ts web_crypto Run.envelope 0 "correct-horse"
           (Toy.world 9 [])).
  reflexivity.
Defined.

